(** * The DDPG portfolio agent: exploration, training steps, buffer population

    A shallow embedding of [ddpgportfolio/agent/ddpg_agent.py] and of the
    Ornstein-Uhlenbeck noise process of [utilities/pg_utils.py].

    Modelling conventions.
    - Python floats and tensor entries are real numbers ([R]); rounding,
      infinities and NaN are outside the model.
    - A tensor is the list of its entries; a batch is a list of rows.
      Element-wise operations follow the one-dimensional broadcasting rule
      of torch and raise [RuntimeError] where torch does.
    - Python integers are [Z]; lengths and sizes are [nat].
    - The agent is a record of its attributes; a method is a function from
      the agent to an outcome and the agent as the method left it, so the
      mutations made before an exception is raised stay visible.
    - The networks, the optimiser, the dataset, the portfolio, the
      portfolio-vector memory, the sampling side of the replay memory and
      the random number generators live outside the two source files; they
      are gathered in the record [World]. *)

From Stdlib Require Import String Reals Lra Lia ZArith List Bool.
Import ListNotations.

Open Scope R_scope.

(** ** Exceptions and outcomes *)

Inductive exn : Type :=
| AttributeError (attr : string)
| RuntimeError
| ZeroDivisionError
| AssertionError
| PyException (msg : string).

Inductive Result (A : Type) : Type :=
| Ok (a : A)
| Raise (e : exn).

Arguments Ok {A} a.
Arguments Raise {A} e.

(** ** Tensors *)

Definition Tensor : Type := list R.

(** The parameters of a network, in the order [parameters()] yields them. *)
Definition Params : Type := list Tensor.

Fixpoint zip_with {A B C : Type} (f : A -> B -> C) (xs : list A) (ys : list B)
  : list C :=
  match xs, ys with
  | x :: xs', y :: ys' => f x y :: zip_with f xs' ys'
  | _, _ => []
  end.

Definition tsum (t : Tensor) : R := fold_right Rplus 0 t.

Definition tmean (t : Tensor) : R := tsum t / INR (length t).

Definition tscale (c : R) (t : Tensor) : Tensor := map (Rmult c) t.

(** [a op b] for one-dimensional tensors: equal sizes combine entry by
    entry, a size-one operand is stretched, anything else is an error. *)
Definition broadcast2 (f : R -> R -> R) (a b : Tensor) : Result Tensor :=
  if Nat.eqb (length a) (length b) then Ok (zip_with f a b)
  else match a, b with
       | _, [y] => Ok (map (fun x => f x y) a)
       | [x], _ => Ok (map (fun y => f x y) b)
       | _, _ => Raise RuntimeError
       end.

(** [a op= b] and [a.copy_(b)]: as [broadcast2], but the result has to fit
    in [a]. *)
Definition inplace2 (f : R -> R -> R) (a b : Tensor) : Result Tensor :=
  if Nat.eqb (length a) (length b) then Ok (zip_with f a b)
  else match b with
       | [y] => Ok (map (fun x => f x y) a)
       | _ => Raise RuntimeError
       end.

(** [torch.softmax] over a flat tensor. *)
Definition softmax (t : Tensor) : Tensor :=
  let e := map exp t in map (fun x => x / tsum e) e.

(** [torch.cat([(1 - row.sum()).unsqueeze, row])]: the cash weight is put
    back in front of the non-cash weights. *)
Definition cat_cash (row : Tensor) : Tensor := (1 - tsum row) :: row.

(** [t[1:]] *)
Definition drop_first (t : Tensor) : Tensor := skipn 1 t.

(** The Euclidean norm of all entries of all tensors together. *)
Definition total_norm (g : Params) : R :=
  sqrt (tsum (map (fun x => x * x) (concat g))).

(** [torch.nn.utils.clip_grad_norm_(parameters, max_norm)] on the gradients. *)
Definition clip_grad_norm_ (g : Params) (max_norm : R) : Params :=
  let clip_coef := max_norm / (total_norm g + 1 / 1000000) in
  let clip_coef_clamped := Rmin clip_coef 1 in
  map (tscale clip_coef_clamped) g.

(** ** The noise process ([pg_utils.py], class [OrnsteinUhlenbeckNoise]) *)

Module OrnsteinUhlenbeckNoise.

Record t : Type := mk {
  mu : R;
  theta : R;
  sigma : R;
  size : nat;
  state : Tensor
}.

(** [np.ones(size) * mu] *)
Definition ones_mu (size : nat) (mu : R) : Tensor := repeat (1 * mu) size.

Definition init (size : nat) (mu theta sigma : R) : t :=
  mk mu theta sigma size (ones_mu size mu).

Definition reset (n : t) : t :=
  mk (mu n) (theta n) (sigma n) (size n) (ones_mu (size n) (mu n)).

(** [sample], given the draw of [np.random.randn(size)].  The state has
    [size] entries by construction, and so has the draw. *)
Definition sample (n : t) (randn : Tensor) : Tensor * t :=
  let x := state n in
  let dx := zip_with Rplus (map (fun xi => theta n * (mu n - xi)) x)
                           (tscale (sigma n) randn) in
  let x' := zip_with Rplus x dx in
  (x', mk (mu n) (theta n) (sigma n) (size n) x').

(** The attributes and methods the class defines.  An access to any other
    name on an instance raises [AttributeError]. *)
Definition members : list string :=
  ["mu"; "theta"; "sigma"; "size"; "state"; "__init__"; "reset"; "sample"]%string.

End OrnsteinUhlenbeckNoise.

(** ** The collaborators' data *)

(** [ddpgportfolio/portfolio/portfolio.py], as far as the agent reads it. *)
Record Portfolio : Type := mkPortfolio {
  m_assets : nat;
  m_noncash_assets : nat;
  n_samples : nat;
  get_reward : Tensor -> Tensor -> Tensor -> R
}.

(** One stored transition: [Experience(state, action, reward, next_state,
    previous_index)], a state being the pair of an observation and the
    previous non-cash weights. *)
Record Experience (Obs : Type) : Type := mkExperience {
  state : Obs * Tensor;
  action : Tensor;
  reward : R;
  next_state : Obs * Tensor;
  previous_index : Z
}.

Arguments mkExperience {Obs}.
Arguments state {Obs}.
Arguments action {Obs}.
Arguments reward {Obs}.
Arguments next_state {Obs}.
Arguments previous_index {Obs}.

(** A sampled batch: the same five fields, each stacked over the batch. *)
Record ExperienceBatch (ObsB : Type) : Type := mkBatch {
  b_state : ObsB * list Tensor;
  b_action : list Tensor;
  b_reward : Tensor;
  b_next_state : ObsB * list Tensor;
  b_previous_index : list Z
}.

Arguments mkBatch {ObsB}.
Arguments b_state {ObsB}.
Arguments b_action {ObsB}.
Arguments b_reward {ObsB}.
Arguments b_next_state {ObsB}.
Arguments b_previous_index {ObsB}.

(** Modelled from the spec: the class [PrioritizedReplayMemory] of
    [ddpgportfolio/memory/memory.py], which is not among the sources.  The
    spec gives it [add(experience, priority)], [len()] and a capacity fixed
    at construction, and leaves the eviction on overflow to the class; here
    an overflowing [add] drops the oldest entry.  Sampling and the update
    of priorities stay abstract, in [World]. *)
Record PrioritizedReplayMemory (Obs : Type) : Type := mkReplay {
  capacity : nat;
  entries : list (Experience Obs * R)
}.

Arguments mkReplay {Obs}.
Arguments capacity {Obs}.
Arguments entries {Obs}.

Definition replay_new {Obs : Type} (cap : nat) : PrioritizedReplayMemory Obs :=
  mkReplay cap [].

Definition replay_add {Obs : Type} (m : PrioritizedReplayMemory Obs)
  (experience : Experience Obs) (priority : R) : PrioritizedReplayMemory Obs :=
  let l := entries m ++ [(experience, priority)] in
  mkReplay (capacity m) (skipn (length l - capacity m) l).

Definition replay_len {Obs : Type} (m : PrioritizedReplayMemory Obs) : nat :=
  length (entries m).

(** What [KrakenDataSet] offers: [len(ds)] and [ds[i]], the latter an
    observation and the index of the sample before it. *)
Record Dataset (Obs : Type) : Type := mkDataset {
  ds_len : nat;
  ds_getitem : Z -> Obs * Z
}.

Arguments mkDataset {Obs}.
Arguments ds_len {Obs}.
Arguments ds_getitem {Obs}.

(** A torch optimiser: its learning rate, which the scheduler rewrites, and
    whatever else it keeps. *)
Record Optim (S : Type) : Type := mkOptim {
  lr : R;
  weight_decay : R;
  opt_state : S
}.

Arguments mkOptim {S}.
Arguments lr {S}.
Arguments weight_decay {S}.
Arguments opt_state {S}.

(** Everything the agent calls that the two source files do not define. *)
Record World : Type := mkWorld {
  Obs : Type;
  ObsB : Type;
  PVM : Type;
  OptimState : Type;
  (* ddpgportfolio/agent/models.py *)
  Actor_init : Z -> nat -> Params;
  Critic_init : Z -> nat -> Params;
  actor_forward : Params -> Obs * Tensor -> Tensor;
  actor_forward_batch : Params -> ObsB * list Tensor -> list Tensor;
  critic_forward : Params -> ObsB * list Tensor -> list Tensor -> Tensor;
  (* torch: reverse-mode differentiation of a scalar in the parameters,
     and Adam *)
  autograd : (Params -> R) -> Params -> Params;
  Adam_init : Params -> OptimState;
  Adam_step : Optim OptimState -> Params -> Params -> OptimState * Params;
  (* ddpgportfolio/dataset *)
  KrakenDataSet : Portfolio -> Z -> Z -> Dataset Obs;
  price_row : Obs -> Tensor;
  (* ddpgportfolio/memory/memory.py *)
  pvm_new : nat -> nat -> PVM;
  get_memory_stack : PVM -> Z -> Tensor;
  update_memory_stack : PVM -> Tensor -> Z -> PVM;
  update_memory_stack_batch : PVM -> list Tensor -> list Z -> PVM;
  replay_sample : PrioritizedReplayMemory Obs -> nat -> Z ->
                  ExperienceBatch ObsB * list Z * Tensor;
  replay_update_priorities : PrioritizedReplayMemory Obs -> list Z -> Tensor ->
                             PrioritizedReplayMemory Obs;
  (* utilities/pg_utils.py imports that the file does not define *)
  compute_entropy : list Tensor -> R;
  (* numpy's generator: the value of the [j]-th entry of the [k]-th draw *)
  np_random_uniform : nat -> nat -> R;
  np_random_rand : nat -> R;
  np_random_randn : nat -> nat -> R
}.

(** ** The agent *)

(** The attributes of a [DDPGAgent].  [target_actor] and [target_critic]
    are declared by the dataclass with [field(init=False)] and no default:
    they are [None] here until something assigns them, and reading an
    unassigned one raises [AttributeError].  [actor_grad] and [critic_grad]
    are the [.grad] buffers of the two networks' parameters ([None] after
    [zero_grad]), and [rng] counts the draws made from numpy's generator.
    The attributes no method reads ([learning_rate], [betas], [device],
    [loss_fn], [dataloader]) are left out. *)

Record Agent (W : World) : Type := mkAgent {
  portfolio : Portfolio;
  batch_size : Z;
  window_size : Z;
  step_size : Z;
  n_iter : Z;
  actor : Params;
  critic : Params;
  target_actor : option Params;
  target_critic : option Params;
  actor_grad : option Params;
  critic_grad : option Params;
  actor_optimizer : Optim (OptimState W);
  critic_optimizer : Optim (OptimState W);
  pvm : PVM W;
  replay_memory : PrioritizedReplayMemory (Obs W);
  ou_noise : OrnsteinUhlenbeckNoise.t;
  gamma : R;
  tau : R;
  epsilon : R;
  epsilon_max : R;
  epsilon_min : R;
  epsilon_decay_rate : R;
  episode_count : Z;
  warmup_steps : Z;
  rng : nat
}.

Arguments portfolio {W}.
Arguments batch_size {W}.
Arguments window_size {W}.
Arguments step_size {W}.
Arguments n_iter {W}.
Arguments actor {W}.
Arguments critic {W}.
Arguments target_actor {W}.
Arguments target_critic {W}.
Arguments actor_grad {W}.
Arguments critic_grad {W}.
Arguments actor_optimizer {W}.
Arguments critic_optimizer {W}.
Arguments pvm {W}.
Arguments replay_memory {W}.
Arguments ou_noise {W}.
Arguments gamma {W}.
Arguments tau {W}.
Arguments epsilon {W}.
Arguments epsilon_max {W}.
Arguments epsilon_min {W}.
Arguments epsilon_decay_rate {W}.
Arguments episode_count {W}.
Arguments warmup_steps {W}.
Arguments rng {W}.
Arguments mkAgent {W}.

Definition set_actor {W : World} (v : Params) (a : Agent W) : Agent W :=
  mkAgent
    (portfolio a) (batch_size a) (window_size a) (step_size a) (n_iter a) v
    (critic a) (target_actor a) (target_critic a) (actor_grad a)
    (critic_grad a) (actor_optimizer a) (critic_optimizer a) (pvm a)
    (replay_memory a) (ou_noise a) (gamma a) (tau a) (epsilon a)
    (epsilon_max a) (epsilon_min a) (epsilon_decay_rate a) (episode_count a)
    (warmup_steps a) (rng a).

Definition set_critic {W : World} (v : Params) (a : Agent W) : Agent W :=
  mkAgent
    (portfolio a) (batch_size a) (window_size a) (step_size a) (n_iter a)
    (actor a) v (target_actor a) (target_critic a) (actor_grad a)
    (critic_grad a) (actor_optimizer a) (critic_optimizer a) (pvm a)
    (replay_memory a) (ou_noise a) (gamma a) (tau a) (epsilon a)
    (epsilon_max a) (epsilon_min a) (epsilon_decay_rate a) (episode_count a)
    (warmup_steps a) (rng a).

Definition set_actor_grad {W : World} (v : option Params) (a : Agent W) : Agent W :=
  mkAgent
    (portfolio a) (batch_size a) (window_size a) (step_size a) (n_iter a)
    (actor a) (critic a) (target_actor a) (target_critic a) v (critic_grad
    a) (actor_optimizer a) (critic_optimizer a) (pvm a) (replay_memory a)
    (ou_noise a) (gamma a) (tau a) (epsilon a) (epsilon_max a) (epsilon_min
    a) (epsilon_decay_rate a) (episode_count a) (warmup_steps a) (rng a).

Definition set_critic_grad {W : World} (v : option Params) (a : Agent W) : Agent W :=
  mkAgent
    (portfolio a) (batch_size a) (window_size a) (step_size a) (n_iter a)
    (actor a) (critic a) (target_actor a) (target_critic a) (actor_grad a) v
    (actor_optimizer a) (critic_optimizer a) (pvm a) (replay_memory a)
    (ou_noise a) (gamma a) (tau a) (epsilon a) (epsilon_max a) (epsilon_min
    a) (epsilon_decay_rate a) (episode_count a) (warmup_steps a) (rng a).

Definition set_actor_optimizer {W : World} (v : Optim (OptimState W)) (a : Agent W) : Agent W :=
  mkAgent
    (portfolio a) (batch_size a) (window_size a) (step_size a) (n_iter a)
    (actor a) (critic a) (target_actor a) (target_critic a) (actor_grad a)
    (critic_grad a) v (critic_optimizer a) (pvm a) (replay_memory a)
    (ou_noise a) (gamma a) (tau a) (epsilon a) (epsilon_max a) (epsilon_min
    a) (epsilon_decay_rate a) (episode_count a) (warmup_steps a) (rng a).

Definition set_critic_optimizer {W : World} (v : Optim (OptimState W)) (a : Agent W) : Agent W :=
  mkAgent
    (portfolio a) (batch_size a) (window_size a) (step_size a) (n_iter a)
    (actor a) (critic a) (target_actor a) (target_critic a) (actor_grad a)
    (critic_grad a) (actor_optimizer a) v (pvm a) (replay_memory a)
    (ou_noise a) (gamma a) (tau a) (epsilon a) (epsilon_max a) (epsilon_min
    a) (epsilon_decay_rate a) (episode_count a) (warmup_steps a) (rng a).

Definition set_pvm {W : World} (v : PVM W) (a : Agent W) : Agent W :=
  mkAgent
    (portfolio a) (batch_size a) (window_size a) (step_size a) (n_iter a)
    (actor a) (critic a) (target_actor a) (target_critic a) (actor_grad a)
    (critic_grad a) (actor_optimizer a) (critic_optimizer a) v
    (replay_memory a) (ou_noise a) (gamma a) (tau a) (epsilon a)
    (epsilon_max a) (epsilon_min a) (epsilon_decay_rate a) (episode_count a)
    (warmup_steps a) (rng a).

Definition set_replay_memory {W : World} (v : PrioritizedReplayMemory (Obs W)) (a : Agent W) : Agent W :=
  mkAgent
    (portfolio a) (batch_size a) (window_size a) (step_size a) (n_iter a)
    (actor a) (critic a) (target_actor a) (target_critic a) (actor_grad a)
    (critic_grad a) (actor_optimizer a) (critic_optimizer a) (pvm a) v
    (ou_noise a) (gamma a) (tau a) (epsilon a) (epsilon_max a) (epsilon_min
    a) (epsilon_decay_rate a) (episode_count a) (warmup_steps a) (rng a).

Definition set_ou_noise {W : World} (v : OrnsteinUhlenbeckNoise.t) (a : Agent W) : Agent W :=
  mkAgent
    (portfolio a) (batch_size a) (window_size a) (step_size a) (n_iter a)
    (actor a) (critic a) (target_actor a) (target_critic a) (actor_grad a)
    (critic_grad a) (actor_optimizer a) (critic_optimizer a) (pvm a)
    (replay_memory a) v (gamma a) (tau a) (epsilon a) (epsilon_max a)
    (epsilon_min a) (epsilon_decay_rate a) (episode_count a) (warmup_steps
    a) (rng a).

Definition set_epsilon {W : World} (v : R) (a : Agent W) : Agent W :=
  mkAgent
    (portfolio a) (batch_size a) (window_size a) (step_size a) (n_iter a)
    (actor a) (critic a) (target_actor a) (target_critic a) (actor_grad a)
    (critic_grad a) (actor_optimizer a) (critic_optimizer a) (pvm a)
    (replay_memory a) (ou_noise a) (gamma a) (tau a) v (epsilon_max a)
    (epsilon_min a) (epsilon_decay_rate a) (episode_count a) (warmup_steps
    a) (rng a).

Definition set_episode_count {W : World} (v : Z) (a : Agent W) : Agent W :=
  mkAgent
    (portfolio a) (batch_size a) (window_size a) (step_size a) (n_iter a)
    (actor a) (critic a) (target_actor a) (target_critic a) (actor_grad a)
    (critic_grad a) (actor_optimizer a) (critic_optimizer a) (pvm a)
    (replay_memory a) (ou_noise a) (gamma a) (tau a) (epsilon a)
    (epsilon_max a) (epsilon_min a) (epsilon_decay_rate a) v (warmup_steps
    a) (rng a).

Definition set_rng {W : World} (v : nat) (a : Agent W) : Agent W :=
  mkAgent
    (portfolio a) (batch_size a) (window_size a) (step_size a) (n_iter a)
    (actor a) (critic a) (target_actor a) (target_critic a) (actor_grad a)
    (critic_grad a) (actor_optimizer a) (critic_optimizer a) (pvm a)
    (replay_memory a) (ou_noise a) (gamma a) (tau a) (epsilon a)
    (epsilon_max a) (epsilon_min a) (epsilon_decay_rate a) (episode_count a)
    (warmup_steps a) v.

Definition set_target_actor {W : World} (v : option Params) (a : Agent W) : Agent W :=
  mkAgent
    (portfolio a) (batch_size a) (window_size a) (step_size a) (n_iter a)
    (actor a) (critic a) v (target_critic a) (actor_grad a) (critic_grad a)
    (actor_optimizer a) (critic_optimizer a) (pvm a) (replay_memory a)
    (ou_noise a) (gamma a) (tau a) (epsilon a) (epsilon_max a) (epsilon_min
    a) (epsilon_decay_rate a) (episode_count a) (warmup_steps a) (rng a).

Definition set_target_critic {W : World} (v : option Params) (a : Agent W) : Agent W :=
  mkAgent
    (portfolio a) (batch_size a) (window_size a) (step_size a) (n_iter a)
    (actor a) (critic a) (target_actor a) v (actor_grad a) (critic_grad a)
    (actor_optimizer a) (critic_optimizer a) (pvm a) (replay_memory a)
    (ou_noise a) (gamma a) (tau a) (epsilon a) (epsilon_max a) (epsilon_min
    a) (epsilon_decay_rate a) (episode_count a) (warmup_steps a) (rng a).

(** ** Methods as state transformers that may raise *)

Definition M (S A : Type) : Type := S -> Result A * S.

Definition ret {S A : Type} (x : A) : M S A := fun s => (Ok x, s).

Definition bind {S A B : Type} (m : M S A) (k : A -> M S B) : M S B :=
  fun s => match m s with
           | (Ok x, s') => k x s'
           | (Raise e, s') => (Raise e, s')
           end.

Definition raise {S A : Type} (e : exn) : M S A := fun s => (Raise e, s).

Definition get {S : Type} : M S S := fun s => (Ok s, s).

Definition modify {S : Type} (f : S -> S) : M S unit := fun s => (Ok tt, f s).

Definition lift {S A : Type} (r : Result A) : M S A := fun s => (r, s).

Notation "x <- m ;; k" := (bind m (fun x => k))
  (at level 61, m at next level, right associativity).
Notation "' p <- m ;; k" := (bind m (fun x => match x with p => k end))
  (at level 61, p pattern, m at next level, right associativity).
Notation "m ;; k" := (bind m (fun _ => k))
  (at level 61, right associativity).

(** [for x in xs: body(x)] *)
Fixpoint for_each {S A : Type} (xs : list A) (body : A -> M S unit) : M S unit :=
  match xs with
  | [] => ret tt
  | x :: xs' => body x ;; for_each xs' body
  end.

(** A loop that carries local variables [acc] from one round to the next. *)
Fixpoint for_fold {S A B : Type} (xs : list A) (acc : B) (body : A -> B -> M S B)
  : M S B :=
  match xs with
  | [] => ret acc
  | x :: xs' => acc' <- body x acc ;; for_fold xs' acc' body
  end.

(** [.grad] after a [backward()] that contributes [g]. *)
Definition accumulate (old : option Params) (g : Params) : option Params :=
  match old with
  | None => Some g
  | Some o => Some (zip_with (zip_with Rplus) o g)
  end.

(** [torch.optim.lr_scheduler.StepLR(optimizer, step_size=100, gamma=0.9)]:
    it counts its steps and multiplies the learning rate by [gamma] at every
    hundredth. *)
Record StepLR : Type := mkStepLR { last_epoch : Z }.

Definition StepLR_step {S : Type} (s : StepLR) (o : Optim S) : StepLR * Optim S :=
  let e := (last_epoch s + 1)%Z in
  (mkStepLR e,
   if (e mod 100 =? 0)%Z then mkOptim (lr o * (9 / 10)) (weight_decay o) (opt_state o)
   else o).

(** [target_network.parameters()] and [main_network.parameters()] walked in
    step, every target tensor overwritten in place.  The second component
    is the target network as the loop left it. *)
Fixpoint soft_update (target_network main_network : Params) (tau : R)
  : Result unit * Params :=
  match target_network, main_network with
  | target_param :: target', main_param :: main' =>
      match broadcast2 Rplus (tscale tau main_param)
                             (tscale (1 - tau) target_param) with
      | Ok v =>
          match inplace2 (fun _ y => y) target_param v with
          | Ok target_param' =>
              let (r, rest) := soft_update target' main' tau in
              (r, target_param' :: rest)
          | Raise e => (Raise e, target_network)
          end
      | Raise e => (Raise e, target_network)
      end
  | _, _ => (Ok tt, target_network)
  end.

(** The arguments of the constructor the dataclass generates. *)
Record Config : Type := mkConfig {
  c_portfolio : Portfolio;
  c_batch_size : Z;
  c_window_size : Z;
  c_step_size : Z;
  c_n_iter : Z;
  c_gamma : R;
  c_tau : R;
  c_epsilon : R;
  c_epsilon_max : R;
  c_epsilon_min : R;
  c_epsilon_decay_rate : R;
  c_episode_count : Z;
  c_warmup_steps : Z
}.

(** [DDPGAgent(portfolio, batch_size, window_size, step_size, n_iter)] with
    the defaults of the class for the rest. *)
Definition default_config (portfolio : Portfolio)
  (batch_size window_size step_size n_iter : Z) : Config :=
  mkConfig portfolio batch_size window_size step_size n_iter
           (9 / 10) (5 / 100) 1 1 (1 / 100) (1 / 100000) 0 6000.

(** The methods [DDPGAgent] defines.  No data attribute of an agent has
    any other name that the methods call. *)
Definition DDPGAgent_methods : list string :=
  ["__post_init__"; "select_uniform_action"; "select_action"; "update_epsilon";
   "update_target_networks"; "soft_update"; "train_actor";
   "_normalize_batch_rewards"; "train_critic"; "warm_up_critic"; "pre_train";
   "train"]%string.

Section Methods.

Variable W : World.

Local Abbreviation A := (Agent W).

Definition __post_init__ (c : Config) : A :=
  let m_assets := m_assets (c_portfolio c) in
  let m_noncash_assets := m_noncash_assets (c_portfolio c) in
  let actor := Actor_init W 3 m_noncash_assets in
  let critic := Critic_init W 3 m_assets in
  let actor_optimizer := mkOptim (1 / 100000) (1 / 100000) (Adam_init W actor) in
  let critic_optimizer := mkOptim (1 / 100000) (1 / 100000) (Adam_init W critic) in
  let ou_noise := OrnsteinUhlenbeckNoise.init m_assets 0 (20 / 100) (5 / 10) in
  let pvm := pvm_new W (n_samples (c_portfolio c)) m_noncash_assets in
  let pvm := update_memory_stack W pvm (repeat 0 m_noncash_assets)
                                 (c_window_size c - 2)%Z in
  let replay_memory := replay_new 20000 in
  mkAgent (c_portfolio c) (c_batch_size c) (c_window_size c) (c_step_size c)
          (c_n_iter c) actor critic None None None None
          actor_optimizer critic_optimizer pvm replay_memory ou_noise
          (c_gamma c) (c_tau c) (c_epsilon c) (c_epsilon_max c)
          (c_epsilon_min c) (c_epsilon_decay_rate c)
          (c_episode_count c) (c_warmup_steps c) 0%nat.

(** [self.<name>] for a name that is meant to be a method. *)
Definition self_method (name : string) : M A unit :=
  if existsb (String.eqb name) DDPGAgent_methods then ret tt
  else raise (AttributeError name).

(** [self.ou_noise.<name>()], for the methods without argument and result. *)
Definition ou_noise_call (name : string) : M A unit :=
  if existsb (String.eqb name) OrnsteinUhlenbeckNoise.members then
    if String.eqb name "reset" then
      modify (fun a => set_ou_noise (OrnsteinUhlenbeckNoise.reset (ou_noise a)) a)
    else ret tt
  else raise (AttributeError name).

Definition draw_uniform (m : nat) : M A Tensor :=
  fun a => (Ok (map (np_random_uniform W (rng a)) (seq 0 m)), set_rng (S (rng a)) a).

Definition draw_rand : M A R :=
  fun a => (Ok (np_random_rand W (rng a)), set_rng (S (rng a)) a).

Definition draw_randn (m : nat) : M A Tensor :=
  fun a => (Ok (map (np_random_randn W (rng a)) (seq 0 m)), set_rng (S (rng a)) a).

(** [self.ou_noise.sample()] *)
Definition ou_noise_sample : M A Tensor :=
  a <- get ;;
  randn <- draw_randn (OrnsteinUhlenbeckNoise.size (ou_noise a)) ;;
  let (x, n) := OrnsteinUhlenbeckNoise.sample (ou_noise a) randn in
  modify (set_ou_noise n) ;;
  ret x.

Definition select_uniform_action (m : nat) : M A Tensor :=
  uniform_vec <- draw_uniform m ;;
  ret (map (fun u => u / tsum uniform_vec) uniform_vec).

Definition update_epsilon : M A unit :=
  a <- get ;;
  (if (episode_count a <? warmup_steps a)%Z then
     if (warmup_steps a =? 0)%Z then raise ZeroDivisionError
     else modify (set_epsilon
                    (epsilon_max a
                     - ((epsilon_max a - 5 / 10) / IZR (warmup_steps a))
                       * IZR (episode_count a)))
   else modify (set_epsilon
                  (Rmax (epsilon_min a)
                        (epsilon a
                         * exp (- epsilon_decay_rate a
                                * IZR (episode_count a - warmup_steps a)))))) ;;
  modify (fun a => set_episode_count (episode_count a + 1)%Z a).

(** The value of the variable [action] of [select_action] at the [return]
    that is reached; every [return] of the method hands back [action[1:]]. *)
Definition select_action_weights (state : Obs W * Tensor) (exploration : bool)
  (action_type : string) : M A Tensor :=
  a <- get ;;
  let action_logits := actor_forward W (actor a) state in
  if exploration then
    if String.eqb action_type "hybrid"
       && (episode_count a <? warmup_steps a)%Z then
      self_method "select_uniform_action" ;;
      action <- select_uniform_action (m_assets (portfolio a)) ;;
      modify (fun a => set_episode_count (episode_count a + 1)%Z a) ;;
      ret action
    else
      (* transition to ou noise after warm up steps *)
      let action_type :=
        if String.eqb action_type "hybrid" then "ou"%string else action_type in
      if String.eqb action_type "ou" then
        noise <- ou_noise_sample ;;
        action_logits <- lift (inplace2 Rplus action_logits noise) ;;
        ou_noise_call "decay_sigma" ;;
        ret (softmax action_logits)
      else if String.eqb action_type "greedy" then
        u <- draw_rand ;;
        if Rlt_dec u (epsilon a) then
          self_method "get_uniform_action" ;;
          action <- select_uniform_action (m_assets (portfolio a)) ;;
          update_epsilon ;;
          ret action
        else ret (softmax action_logits)
      else ret (softmax action_logits)
  else ret (softmax action_logits).

Definition select_action (state : Obs W * Tensor) (exploration : bool)
  (action_type : string) : M A Tensor :=
  action <- select_action_weights state exploration action_type ;;
  (* return all non-cash weights *)
  ret (drop_first action).

Definition update_target_networks : M A unit :=
  a <- get ;;
  target_actor <- match target_actor a with
                  | Some p => ret p
                  | None => raise (AttributeError "target_actor")
                  end ;;
  (let (r, p) := soft_update target_actor (actor a) (tau a) in
   modify (set_target_actor (Some p)) ;; lift r) ;;
  target_critic <- match target_critic a with
                   | Some p => ret p
                   | None => raise (AttributeError "target_critic")
                   end ;;
  let (r, p) := soft_update target_critic (critic a) (tau a) in
  modify (set_target_critic (Some p)) ;; lift r.

End Methods.

Section Training.

Variable W : World.

Local Abbreviation A := (Agent W).

(** [td_target - predicted_q_values] of [train_critic], for critic
    parameters [theta]. *)
Definition critic_td_error (theta : Params) (batch_size : Z)
  (experience : ExperienceBatch (ObsB W)) : Result Tensor :=
  let (xt, previous_noncash_actions) := b_state experience in
  let reward := b_reward experience in
  (* previous action includes cash weight now *)
  let previous_action := map cat_cash previous_noncash_actions in
  (* construct st = (Xt, wt-1) *)
  let state := (xt, previous_action) in
  (* we need to do the same for action wt at time t *)
  let noncash_actions := b_action experience in
  let actions := map cat_cash noncash_actions in
  let predicted_q_values := critic_forward W theta state actions in
  let td_target := map (fun r => r / IZR batch_size) reward in
  broadcast2 Rminus td_target predicted_q_values.

(** [torch.mean(td_error**2)], then [(critic_loss * is_weights).mean()]. *)
Definition critic_loss_of (td_error is_weights : Tensor) : R :=
  let critic_loss := tmean (map (fun e => e * e) td_error) in
  tmean (tscale critic_loss is_weights).

(** The critic loss as the scalar function of the critic's parameters that
    [backward()] differentiates. *)
Definition critic_objective (batch_size : Z)
  (experience : ExperienceBatch (ObsB W)) (is_weights : Tensor)
  (theta : Params) : R :=
  match critic_td_error theta batch_size experience with
  | Ok td_error => critic_loss_of td_error is_weights
  | Raise _ => 0
  end.

(** [optimizer.step()]: parameters without a gradient are left alone. *)
Definition optimizer_step (o : Optim (OptimState W)) (params : Params)
  (grad : option Params) : Optim (OptimState W) * Params :=
  match grad with
  | Some g => let (s, p) := Adam_step W o params g in
              (mkOptim (lr o) (weight_decay o) s, p)
  | None => (o, params)
  end.

Definition train_critic (experience : ExperienceBatch (ObsB W))
  (is_weights : Tensor) : M A (Tensor * R) :=
  modify (set_critic_grad None) ;;
  a <- get ;;
  td_error <- lift (critic_td_error (critic a) (batch_size a) experience) ;;
  let critic_loss := critic_loss_of td_error is_weights in
  (* critic_loss.backward() *)
  modify (fun a =>
    set_critic_grad
      (accumulate (critic_grad a)
         (autograd W (critic_objective (batch_size a) experience is_weights)
                   (critic a))) a) ;;
  (* torch.nn.utils.clip_grad_norm_(self.critic.parameters(), max_norm=1.0) *)
  modify (fun a =>
    set_critic_grad (option_map (fun g => clip_grad_norm_ g 1) (critic_grad a)) a) ;;
  modify (fun a =>
    let (o, p) := optimizer_step (critic_optimizer a) (critic a) (critic_grad a) in
    set_critic_optimizer o (set_critic p a)) ;;
  ret (td_error, critic_loss).

(** [torch.softmax(self.actor(experience.state), dim=1)] *)
Definition actor_predicted_actions (theta : Params)
  (experience : ExperienceBatch (ObsB W)) : list Tensor :=
  let logits := actor_forward_batch W theta (b_state experience) in
  map softmax logits.

(** [self.critic(state, predicted_actions)] of [train_actor] *)
Definition actor_q_values (theta_actor theta_critic : Params)
  (experience : ExperienceBatch (ObsB W)) : Tensor :=
  let predicted_actions := actor_predicted_actions theta_actor experience in
  let (xt, previous_noncash_actions) := b_state experience in
  let previous_action := map cat_cash previous_noncash_actions in
  let state := (xt, previous_action) in
  critic_forward W theta_critic state predicted_actions.

(** [-q_values.mean()], then [(actor_loss * is_weights).mean()]. *)
Definition actor_loss_of (q_values is_weights : Tensor) : R :=
  let actor_loss := - tmean q_values in
  tmean (tscale actor_loss is_weights).

Definition actor_objective (experience : ExperienceBatch (ObsB W))
  (is_weights : Tensor) (theta_actor theta_critic : Params) : R :=
  actor_loss_of (actor_q_values theta_actor theta_critic experience) is_weights.

Definition train_actor (experience : ExperienceBatch (ObsB W))
  (is_weights : Tensor) (beta : R) : M A (list Tensor * R) :=
  modify (set_actor_grad None) ;;
  a <- get ;;
  let predicted_actions := actor_predicted_actions (actor a) experience in
  (* actor has to choose action that maximizes the q value *)
  let q_values := actor_q_values (actor a) (critic a) experience in
  let entropy := compute_entropy W predicted_actions in
  let actor_loss := actor_loss_of q_values is_weights in
  (* actor_loss.backward(): the loss depends on both networks *)
  modify (fun a =>
    set_actor_grad
      (accumulate (actor_grad a)
         (autograd W (fun th => actor_objective experience is_weights th (critic a))
                   (actor a)))
      (set_critic_grad
         (accumulate (critic_grad a)
            (autograd W (fun th => actor_objective experience is_weights (actor a) th)
                      (critic a))) a)) ;;
  modify (fun a =>
    let (o, p) := optimizer_step (actor_optimizer a) (actor a) (actor_grad a) in
    set_actor_optimizer o (set_actor p a)) ;;
  ret (map drop_first predicted_actions, actor_loss).

(** One round of the loop of [pre_train]. *)
Definition pre_train_step (kraken_ds : Dataset (Obs W)) (i : nat) : M A unit :=
  let (xt, prev_index) := ds_getitem kraken_ds (Z.of_nat i - 1)%Z in
  a <- get ;;
  let previous_action := get_memory_stack W (pvm a) prev_index in
  let state := (xt, previous_action) in
  (* get current weight from actor network given s = (Xt, wt_prev) *)
  action <- select_action W state true "hybrid" ;;
  (* get the relative price vector from price tensor to calculate reward *)
  let yt := map (fun p => 1 / p) (price_row W xt) in
  let reward := get_reward (portfolio a) action yt previous_action in
  let (xt_next, _) := ds_getitem kraken_ds (Z.of_nat i) in
  let next_state := (xt_next, action) in
  let experience := mkExperience state action reward next_state prev_index in
  modify (fun a => set_replay_memory (replay_add (replay_memory a) experience reward) a).

Definition pre_train : M A unit :=
  a <- get ;;
  let kraken_ds := KrakenDataSet W (portfolio a) (window_size a) (step_size a) in
  (* resetting ou process in the event of a new run *)
  ou_noise_call W "reset" ;;
  let n_samples := ds_len kraken_ds in
  for_each (seq 1 (n_samples + 48)) (pre_train_step kraken_ds) ;;
  a <- get ;;
  if Nat.eqb (replay_len (replay_memory a)) (n_samples + 48) then ret tt
  else raise AssertionError.

(** The local variables of [train] that live across iterations. *)
Record TrainLocals : Type := mkLocals {
  critic_scheduler : StepLR;
  actor_scheduler : StepLR;
  episode_actor_loss : R;
  episode_critic_loss : R;
  total_episodic_reward : R
}.

(** One round of the inner loop of [train]. *)
Definition train_iteration (batch_size : Z) (l : TrainLocals) : M A TrainLocals :=
  a <- get ;;
  (* Sample a batch of experiences from the replay buffer *)
  let '(experiences, indices, is_weights) :=
    replay_sample W (replay_memory a) (rng a) batch_size in
  modify (set_rng (S (rng a))) ;;
  let reward := b_reward experiences in
  (* Update critic (TD Error) *)
  ' (td_error, critic_loss) <- train_critic experiences is_weights ;;
  modify (fun a =>
    set_replay_memory
      (replay_update_priorities W (replay_memory a) indices td_error) a) ;;
  (* Update actor (deterministic policy gradient) *)
  ' (action, actor_loss) <- train_actor experiences is_weights (5 / 100) ;;
  modify (fun a =>
    set_pvm (update_memory_stack_batch W (pvm a) action
               (map (fun i => (i + 1)%Z) (b_previous_index experiences))) a) ;;
  (* Update the learning rate scheduler *)
  a <- get ;;
  let (cs, co) := StepLR_step (critic_scheduler l) (critic_optimizer a) in
  let (acs, ao) := StepLR_step (actor_scheduler l) (actor_optimizer a) in
  modify (fun a => set_actor_optimizer ao (set_critic_optimizer co a)) ;;
  ret (mkLocals cs acs
         (episode_actor_loss l + actor_loss)
         (episode_critic_loss l + critic_loss)
         (total_episodic_reward l + tsum reward)).

(** The lists [train] hands to [plot_performance]. *)
Record TrainLog : Type := mkLog {
  actor_losses : list R;
  critic_losses : list R;
  rewards : list R
}.

Definition train_episode (batch_size n_iterations_per_episode : Z)
  (acc : StepLR * StepLR * TrainLog) : M A (StepLR * StepLR * TrainLog) :=
  let '(cs, acs, log) := acc in
  l <- for_fold (seq 0 (Z.to_nat n_iterations_per_episode))
                (mkLocals cs acs 0 0 0)
                (fun _ l => train_iteration batch_size l) ;;
  if (n_iterations_per_episode =? 0)%Z then raise ZeroDivisionError
  else
    let avg_episode_actor_loss := episode_actor_loss l / IZR n_iterations_per_episode in
    let avg_episode_critic_loss := episode_critic_loss l / IZR n_iterations_per_episode in
    if (batch_size =? 0)%Z then raise ZeroDivisionError
    else
      ret (critic_scheduler l, actor_scheduler l,
           mkLog (actor_losses log ++ [avg_episode_actor_loss])
                 (critic_losses log ++ [avg_episode_critic_loss])
                 (rewards log ++ [total_episodic_reward l / IZR batch_size])).

Definition train (n_episodes n_iterations_per_episode : Z) : M A TrainLog :=
  a <- get ;;
  if Nat.eqb (replay_len (replay_memory a)) 0 then
    raise (PyException "replay memory is empty.  Please pre-train agent")
  else
    (* scheduler to perform learning rate decay *)
    let critic_scheduler := mkStepLR 0 in
    let actor_scheduler := mkStepLR 0 in
    let batch_size := batch_size a in
    ' (_, _, log) <- for_fold (seq 0 (Z.to_nat n_episodes))
                       (critic_scheduler, actor_scheduler, mkLog [] [] [])
                       (fun _ acc =>
                          train_episode batch_size n_iterations_per_episode acc) ;;
    ret log.

End Training.

(** ** Notions the statements below use *)

(** [m] run [n] times in a row. *)
Fixpoint repeat_m {S : Type} (n : nat) (m : M S unit) : M S unit :=
  match n with
  | O => ret tt
  | S n' => m ;; repeat_m n' m
  end.

(** A vector of portfolio weights: no negative entry, entries adding up to
    one within [1e-5]. *)
Definition on_simplex (v : Tensor) : Prop :=
  Forall (fun x => 0 <= x) v /\ Rabs (tsum v - 1) <= 1 / 100000.

(** Corresponding tensors of two networks have the same number of entries. *)
Definition same_shapes (p q : Params) : Prop :=
  Forall2 (fun t m : Tensor => length t = length m) p q.

(** Polyak averaging of one entry. *)
Definition polyak (tau target_entry main_entry : R) : R :=
  tau * main_entry + (1 - tau) * target_entry.

(** The value the warm-up branch of [update_epsilon] assigns when the
    counter reads [k]. *)
Definition warmup_epsilon {W : World} (a : Agent W) (k : Z) : R :=
  epsilon_max a - ((epsilon_max a - 5 / 10) / IZR (warmup_steps a)) * IZR k.

(** The agent after [self.ou_noise.sample()]: one draw taken from the
    generator, the state of the noise process advanced. *)
Definition after_noise_sample {W : World} (a : Agent W) : Agent W :=
  set_ou_noise
    (snd (OrnsteinUhlenbeckNoise.sample (ou_noise a)
            (map (np_random_randn W (rng a))
                 (seq 0 (OrnsteinUhlenbeckNoise.size (ou_noise a))))))
    (set_rng (S (rng a)) a).

(** [a'] is [a] after [k] more experiences were stored during the warm-up:
    same [warmup_steps] and capacity, counter and buffer length up by [k]. *)
Definition filled_by {W : World} (k : nat) (a a' : Agent W) : Prop :=
  warmup_steps a' = warmup_steps a
  /\ episode_count a' = (episode_count a + Z.of_nat k)%Z
  /\ capacity (replay_memory a') = capacity (replay_memory a)
  /\ replay_len (replay_memory a') = (replay_len (replay_memory a) + k)%nat.

(** The critic loss in the words of the specification: the mean over the
    batch of each squared TD error times the importance weight of its own
    sample. *)
Definition spec_critic_loss (td_error is_weights : Tensor) : R :=
  tmean (zip_with Rmult (map (fun e => e * e) td_error) is_weights).

(** The q-values of the actor step in the words of the specification: the
    value estimator at the cash-reconstructed state and the predicted
    non-cash action, the one the step returns. *)
Definition spec_actor_q_values (W : World) (theta_actor theta_critic : Params)
  (experience : ExperienceBatch (ObsB W)) : Tensor :=
  let predicted_actions := actor_predicted_actions W theta_actor experience in
  let (xt, previous_noncash_actions) := b_state experience in
  let state := (xt, map cat_cash previous_noncash_actions) in
  critic_forward W theta_critic state (map drop_first predicted_actions).

(** ** A small world to run the definitions in

    Observations carry no data; the actor emits one zero logit per asset,
    the critic values an action by the sum of its weights, gradients vanish, the
    optimiser is plain gradient descent, and every random draw is the same
    number. *)
Module Toy.

Definition portfolio (n : nat) : Portfolio :=
  mkPortfolio 3 2 n (fun _ _ _ => 0).

Definition world : World :=
  mkWorld unit unit unit unit
    (fun _ n => [repeat 0 n])
    (fun _ n => [repeat 0 n])
    (fun _ _ => [0; 0; 0])
    (fun _ s => map (fun _ => [0; 0]) (snd s))
    (fun _ _ actions => map tsum actions)
    (fun _ theta => map (map (fun _ => 0)) theta)
    (fun _ => tt)
    (fun o p g => (tt, zip_with (zip_with (fun x d => x - lr o * d)) p g))
    (fun p _ _ => mkDataset (n_samples p) (fun i => (tt, i)))
    (fun _ => [1; 1; 1])
    (fun _ _ => tt)
    (fun _ _ => [0; 0])
    (fun m _ _ => m)
    (fun m _ _ => m)
    (fun _ _ _ => (mkBatch (tt, []) [] [] (tt, []) [], [], []))
    (fun m _ _ => m)
    (fun _ => 0)
    (fun _ _ => 1 / 2)
    (fun _ => 0)
    (fun _ _ => 0).

(** A freshly constructed agent for a dataset of [n] samples and batches of
    [batch_size]. *)
Definition agent (n : nat) (batch_size : Z) : Agent world :=
  __post_init__ world (default_config (portfolio n) batch_size 50 1 20).

(** A batch of two samples with rewards [2] and [0], both taken with all
    the non-cash weight on one asset. *)
Definition batch2 : ExperienceBatch unit :=
  mkBatch (tt, [[1; 0]; [1; 0]]) [[1; 0]; [1; 0]] [2; 0]
          (tt, [[1; 0]; [1; 0]]) [0%Z; 1%Z].

Definition weights2 : Tensor := [1; 1 / 2].

(** An agent whose buffer holds one experience. *)
Definition with_one_experience : Agent world :=
  @set_replay_memory world
    (mkReplay 20000 [(mkExperience (tt, []) [] 0 (tt, []) 0%Z, 0)])
    (agent 10 4).

End Toy.

(** ** The rest of the two files *)

(** A Python float that may be [float("inf")]. *)
Inductive pyfloat : Type :=
| Finite (x : R)
| Infinity.

(** [pg_utils.py], class [RewardNormalizer]: running mean and sum of squared
    differences.  [update] mutates the object, so it is a transformer of
    it; [get_stats] and [normalize] only read. *)
Module RewardNormalizer.

Record t : Type := mk {
  mean : R;
  M2 : R;
  count : Z
}.

Definition init : t := mk 0 0 0.

Definition update (reward : R) : M t unit :=
  modify (fun s => mk (mean s) (M2 s) (count s + 1)) ;;
  s <- get ;;
  let delta := reward - mean s in
  (if (count s =? 0)%Z then raise ZeroDivisionError
   else modify (fun s => mk (mean s + delta / IZR (count s)) (M2 s) (count s))) ;;
  s <- get ;;
  let delta2 := reward - mean s in
  modify (fun s => mk (mean s) (M2 s + delta * delta2) (count s)).

(** [variance**0.5] is the square root as long as the variance is not
    negative. *)
Definition get_stats (s : t) : R * pyfloat :=
  if (count s <? 2)%Z then (mean s, Infinity)
  else
    let variance := M2 s / IZR (count s) in
    let std := sqrt variance in
    (mean s, Finite std).

Definition normalize (s : t) (reward : R) : R :=
  let (mean, std) := get_stats s in
  match std with
  | Infinity => reward
  | Finite std => if Req_dec_T std 0 then reward else (reward - mean) / std
  end.

(** [update] called on every reward of a list in turn. *)
Definition feed (rewards : list R) : M t unit := for_each rewards update.

End RewardNormalizer.

(** The invariant of the running statistics with respect to the rewards
    seen so far. *)
Definition welford (s : RewardNormalizer.t) (seen : list R) : Prop :=
  RewardNormalizer.count s = Z.of_nat (length seen)
  /\ IZR (RewardNormalizer.count s) * RewardNormalizer.mean s = tsum seen
  /\ RewardNormalizer.M2 s
     = tsum (map (fun x => x * x) seen)
       - IZR (RewardNormalizer.count s)
         * (RewardNormalizer.mean s * RewardNormalizer.mean s).

(** [tensor.std()]: the square root of the unbiased sample variance. *)
Definition tensor_std (t : Tensor) : R :=
  sqrt (tsum (map (fun x => (x - tmean t) * (x - tmean t)) t)
        / (INR (length t) - 1)).

(** [DDPGAgent._normalize_batch_rewards]; it reads nothing of the agent. *)
Definition _normalize_batch_rewards (rewards : Tensor) : Tensor :=
  let mean := tmean rewards in
  let std := tensor_std rewards in
  map (fun r => (r - mean) / (std + 1 / 100000)) rewards.

(** The loop of [warm_up_critic] with [k] rounds to go; its [return] ends
    the method, and nothing but a [print] follows the loop. *)
Fixpoint warm_up_rounds (W : World) (k : nat) : M (Agent W) unit :=
  match k with
  | O => ret tt
  | S k' =>
      a <- get ;;
      (* Sample a batch of experiences from the replay buffer *)
      if (Z.of_nat (replay_len (replay_memory a)) <? batch_size a)%Z then ret tt
      else
        let '(experiences, _, is_weights) :=
          replay_sample W (replay_memory a) (rng a) (batch_size a) in
        modify (set_rng (S (rng a))) ;;
        (* Perform a critic-only update *)
        _ <- train_critic W experiences is_weights ;;
        warm_up_rounds W k'
  end.

Definition warm_up_critic (W : World) (n_iterations : Z) : M (Agent W) unit :=
  warm_up_rounds W (Z.to_nat n_iterations).

(** [sample()] called once for every draw of a list. *)
Fixpoint sample_many (n : OrnsteinUhlenbeckNoise.t) (draws : list Tensor)
  : OrnsteinUhlenbeckNoise.t :=
  match draws with
  | [] => n
  | d :: draws' => sample_many (snd (OrnsteinUhlenbeckNoise.sample n d)) draws'
  end.

(** [soft_update] called [k] times with the same online network. *)
Fixpoint soft_update_many (k : nat) (target main : Params) (tau : R) : Params :=
  match k with
  | O => target
  | S k' => soft_update_many k' (snd (soft_update target main tau)) main tau
  end.

(** The entries of [v] lie between the matching entries of [lo] and [hi],
    whichever of the two is the smaller. *)
Definition between (lo hi v : Tensor) : Prop :=
  Forall2 (fun b x => Rmin (fst b) (snd b) <= x <= Rmax (fst b) (snd b))
          (combine lo hi) v.

(** The agent's exploration state and networks that neither the critic
    step nor sampling may touch. *)
Definition same_outside_critic {W : World} (a a' : Agent W) : Prop :=
  actor a' = actor a
  /\ actor_optimizer a' = actor_optimizer a
  /\ pvm a' = pvm a
  /\ replay_memory a' = replay_memory a
  /\ ou_noise a' = ou_noise a
  /\ epsilon a' = epsilon a
  /\ episode_count a' = episode_count a
  /\ target_actor a' = target_actor a
  /\ target_critic a' = target_critic a.

(** The exploration schedule is set up sensibly and [epsilon] is inside
    its range: [epsilon_min <= 0.5 <= epsilon_max], a decay rate and a
    counter that are not negative. *)
Definition epsilon_in_range {W : World} (a : Agent W) : Prop :=
  epsilon_min a <= 5 / 10 <= epsilon_max a
  /\ 0 <= epsilon_decay_rate a
  /\ (0 <= episode_count a)%Z
  /\ epsilon_min a <= epsilon a <= epsilon_max a.

(** [a'] is [a] after [k] rounds of [pre_train] that drew their action
    uniformly: the counter and the generator have moved on by [k], and the
    networks, the portfolio-vector memory, the noise process and [epsilon]
    are untouched. *)
Definition only_explored {W : World} (k : nat) (a a' : Agent W) : Prop :=
  episode_count a' = (episode_count a + Z.of_nat k)%Z
  /\ warmup_steps a' = warmup_steps a
  /\ rng a' = (rng a + k)%nat
  /\ ou_noise a' = ou_noise a
  /\ actor a' = actor a
  /\ critic a' = critic a
  /\ pvm a' = pvm a
  /\ epsilon a' = epsilon a.


(** What [train] has no business with: the exploration state and the
    target networks. *)
Definition same_exploration {W : World} (a a' : Agent W) : Prop :=
  ou_noise a' = ou_noise a
  /\ epsilon a' = epsilon a
  /\ episode_count a' = episode_count a
  /\ target_actor a' = target_actor a
  /\ target_critic a' = target_critic a.

(** The learning rate after [k] steps of a [StepLR] scheduler that started
    at [lr0]. *)
Definition lr_after (lr0 : R) (k : Z) : R := lr0 * (9 / 10) ^ Z.to_nat (k / 100).

(** The schedulers have made [k] steps since the learning rates were
    [lr_critic] and [lr_actor]. *)
Definition schedulers_at {W : World} (lr_critic lr_actor : R) (k : Z)
  (cs acs : StepLR) (a : Agent W) : Prop :=
  (0 <= k)%Z
  /\ last_epoch cs = k /\ last_epoch acs = k
  /\ lr (critic_optimizer a) = lr_after lr_critic k
  /\ lr (actor_optimizer a) = lr_after lr_actor k.

(** * Properties *)

Ltac run_monad :=
  unfold bind, get, ret, modify, lift, raise; cbv beta iota.

(** Comparisons of string literals, decided in place. *)
Ltac eval_strings :=
  cbv beta iota zeta delta [String.eqb Ascii.eqb Bool.eqb andb].


(** ** Tensors *)

Lemma zip_with_length {A B C : Type} (f : A -> B -> C) (xs : list A) (ys : list B) :
  length xs = length ys -> length (zip_with f xs ys) = length xs.
Proof.
  revert ys; induction xs as [|x xs IH]; intros [|y ys] H; simpl in *;
    try discriminate; auto.
Qed.

Lemma zip_with_keep_right {A : Type} (xs ys : list A) :
  length xs = length ys -> zip_with (fun _ y => y) xs ys = ys.
Proof.
  revert ys; induction xs as [|x xs IH]; intros [|y ys] H; simpl in *;
    try discriminate; auto.
  f_equal; apply IH; lia.
Qed.

Lemma zip_with_map_map {A B C D E : Type} (f : C -> D -> E) (g : A -> C)
  (h : B -> D) (xs : list A) (ys : list B) :
  zip_with f (map g xs) (map h ys) = zip_with (fun x y => f (g x) (h y)) xs ys.
Proof.
  revert ys; induction xs as [|x xs IH]; intros [|y ys]; simpl; auto.
  f_equal; apply IH.
Qed.

Lemma zip_with_flip {A B C : Type} (f : A -> B -> C) (xs : list A) (ys : list B) :
  zip_with f xs ys = zip_with (fun y x => f x y) ys xs.
Proof.
  revert ys; induction xs as [|x xs IH]; intros [|y ys]; simpl; auto.
  f_equal; apply IH.
Qed.

Lemma zip_with_ext {A B C : Type} (f g : A -> B -> C) (xs : list A) (ys : list B) :
  (forall x y, f x y = g x y) -> zip_with f xs ys = zip_with g xs ys.
Proof.
  intros H; revert ys; induction xs as [|x xs IH]; intros [|y ys]; simpl; auto.
  rewrite H; f_equal; apply IH.
Qed.

Lemma zip_with_const_left {A : Type} (f : A -> A -> A) (xs ys : list A) :
  length xs = length ys -> (forall x y, f x y = x) -> zip_with f xs ys = xs.
Proof.
  intros Hl Hf; revert ys Hl; induction xs as [|x xs IH]; intros [|y ys] Hl;
    simpl in *; try discriminate; auto.
  rewrite Hf; f_equal; apply IH; lia.
Qed.

Lemma tsum_scale (c : R) (t : Tensor) : tsum (tscale c t) = c * tsum t.
Proof.
  unfold tscale; induction t as [|x t IH]; simpl.
  - lra.
  - rewrite IH; lra.
Qed.

Lemma tsum_div (s : R) (t : Tensor) :
  tsum (map (fun x => x / s) t) = tsum t / s.
Proof.
  induction t as [|x t IH]; simpl.
  - unfold Rdiv; lra.
  - rewrite IH; unfold Rdiv; lra.
Qed.

Lemma tsum_nonneg (t : Tensor) : Forall (fun x => 0 <= x) t -> 0 <= tsum t.
Proof.
  induction 1 as [|x t Hx Ht IH]; simpl; lra.
Qed.

Lemma tsum_exp_pos (t : Tensor) : t <> [] -> 0 < tsum (map exp t).
Proof.
  destruct t as [|x t]; [congruence | intros _; simpl].
  pose proof (exp_pos x) as Hx.
  assert (0 <= tsum (map exp t)).
  { apply tsum_nonneg, Forall_forall; intros y Hy.
    apply in_map_iff in Hy as [z [<- _]]; left; apply exp_pos. }
  lra.
Qed.

Lemma softmax_sum (t : Tensor) : t <> [] -> tsum (softmax t) = 1.
Proof.
  intros Ht; unfold softmax; cbv zeta.
  rewrite tsum_div.
  pose proof (tsum_exp_pos t Ht).
  unfold Rdiv; apply Rinv_r; lra.
Qed.

Lemma softmax_nonneg (t : Tensor) : Forall (fun x => 0 <= x) (softmax t).
Proof.
  unfold softmax; cbv zeta.
  destruct t as [|x0 t0]; [constructor|].
  pose proof (tsum_exp_pos (x0 :: t0) ltac:(congruence)) as Hs.
  apply Forall_forall; intros y Hy.
  apply in_map_iff in Hy as [z [<- Hz]].
  apply in_map_iff in Hz as [u [<- _]].
  pose proof (exp_pos u).
  apply Rlt_le, Rdiv_lt_0_compat; assumption.
Qed.

Lemma normalised_on_simplex (v : Tensor) :
  Forall (fun x => 0 <= x) v -> 0 < tsum v ->
  on_simplex (map (fun u => u / tsum v) v).
Proof.
  intros Hv Hs; split.
  - apply Forall_forall; intros y Hy.
    apply in_map_iff in Hy as [u [<- Hu]].
    rewrite Forall_forall in Hv; specialize (Hv u Hu).
    unfold Rdiv; apply Rmult_le_pos; [assumption|].
    left; apply Rinv_0_lt_compat; assumption.
  - rewrite tsum_div.
    replace (tsum v / tsum v - 1) with 0 by (field; lra).
    rewrite Rabs_R0; lra.
Qed.

Lemma softmax_on_simplex (t : Tensor) : t <> [] -> on_simplex (softmax t).
Proof.
  intros Ht; split.
  - apply softmax_nonneg.
  - rewrite softmax_sum by assumption.
    replace (1 - 1) with 0 by lra; rewrite Rabs_R0; lra.
Qed.

(** ** Soft update of a target network *)

Lemma polyak_tensor (tau : R) (t m : Tensor) :
  length t = length m ->
  broadcast2 Rplus (tscale tau m) (tscale (1 - tau) t)
  = Ok (zip_with (polyak tau) t m).
Proof.
  intros Hl; unfold broadcast2, tscale.
  rewrite !length_map, <- Hl, Nat.eqb_refl.
  rewrite zip_with_map_map, zip_with_flip; reflexivity.
Qed.

Lemma copy_same_size (t v : Tensor) :
  length t = length v -> inplace2 (fun _ y => y) t v = Ok v.
Proof.
  intros Hl; unfold inplace2; rewrite Hl, Nat.eqb_refl.
  rewrite zip_with_keep_right by assumption; reflexivity.
Qed.

Lemma soft_update_same_shapes (target main : Params) (tau : R) :
  same_shapes target main ->
  soft_update target main tau
  = (Ok tt, zip_with (zip_with (polyak tau)) target main).
Proof.
  induction 1 as [|t m target main Hl Hs IH]; simpl; [reflexivity|].
  rewrite polyak_tensor by assumption.
  rewrite copy_same_size by (rewrite zip_with_length; auto).
  rewrite IH; reflexivity.
Qed.

Lemma polyak_all_main (target main : Params) :
  same_shapes target main -> zip_with (zip_with (polyak 1)) target main = main.
Proof.
  induction 1 as [|t m target main Hl Hs IH]; simpl; [reflexivity|].
  rewrite IH, zip_with_flip, zip_with_const_left;
    [reflexivity | auto | intros; unfold polyak; lra].
Qed.

Lemma polyak_all_target (target main : Params) :
  same_shapes target main -> zip_with (zip_with (polyak 0)) target main = target.
Proof.
  induction 1 as [|t m target main Hl Hs IH]; simpl; [reflexivity|].
  rewrite IH, zip_with_const_left;
    [reflexivity | auto | intros; unfold polyak; lra].
Qed.

(** C10.  For a target and an online network with as many parameter tensors
    as each other, tensor by tensor of the same size, [soft_update] ends
    normally and leaves in every target entry [tau] times the online entry
    plus [1 - tau] times the old target entry.  With [tau = 1] the target
    becomes the online network, with [tau = 0] it stays as it was. *)
Theorem soft_update_polyak (target main : Params) (tau : R) :
  same_shapes target main ->
  soft_update target main tau
  = (Ok tt, zip_with (zip_with (polyak tau)) target main)
  /\ (tau = 1 -> soft_update target main tau = (Ok tt, main))
  /\ (tau = 0 -> soft_update target main tau = (Ok tt, target)).
Proof.
  intros Hs; repeat split.
  - apply soft_update_same_shapes; assumption.
  - intros ->; rewrite soft_update_same_shapes, polyak_all_main; auto.
  - intros ->; rewrite soft_update_same_shapes, polyak_all_target; auto.
Qed.

Lemma soft_update_polyak_witness :
  same_shapes [[1; 2]; [3]] [[5; 6]; [7]]
  /\ soft_update [[1; 2]; [3]] [[5; 6]; [7]] (5 / 100)
     = (Ok tt, zip_with (zip_with (polyak (5 / 100))) [[1; 2]; [3]] [[5; 6]; [7]]).
Proof.
  assert (H : same_shapes [[1; 2]; [3]] [[5; 6]; [7]])
    by (repeat constructor).
  split; [exact H | exact (proj1 (soft_update_polyak _ _ (5 / 100) H))].
Defined.

(** ** Construction and the target networks *)

Section Construction.

Variable W : World.

Lemma post_init_no_targets (c : Config) :
  target_actor (__post_init__ W c) = None
  /\ target_critic (__post_init__ W c) = None.
Proof. split; reflexivity. Qed.

(** C6, as the code has it.  The constructor assigns the online actor and
    critic but neither [target_actor] nor [target_critic]; on a freshly
    constructed agent [update_target_networks] raises [AttributeError] at
    its first read of [self.target_actor] and changes nothing. *)
Theorem update_target_networks_after_init (c : Config) :
  target_actor (__post_init__ W c) = None
  /\ target_critic (__post_init__ W c) = None
  /\ update_target_networks W (__post_init__ W c)
     = (Raise (AttributeError "target_actor"), __post_init__ W c).
Proof. repeat split. Qed.

(** Once both target networks exist, with the shapes of the online ones,
    the update is the Polyak average of both with the agent's [tau]. *)
Lemma update_target_networks_polyak (a : Agent W) (ta tc : Params) :
  target_actor a = Some ta -> target_critic a = Some tc ->
  same_shapes ta (actor a) -> same_shapes tc (critic a) ->
  update_target_networks W a
  = (Ok tt,
     set_target_critic (Some (zip_with (zip_with (polyak (tau a))) tc (critic a)))
       (set_target_actor (Some (zip_with (zip_with (polyak (tau a))) ta (actor a)))
          a)).
Proof.
  intros Ha Hc Hsa Hsc.
  unfold update_target_networks, bind, get.
  rewrite Ha, Hc; unfold ret.
  rewrite !soft_update_same_shapes by assumption.
  reflexivity.
Qed.

(** ** Training refuses an empty buffer *)

(** C9.  With an empty replay buffer [train] raises its exception at once:
    the agent it leaves behind is the agent it was given. *)
Theorem train_empty_buffer (a : Agent W) (n_episodes n_iterations_per_episode : Z) :
  replay_len (replay_memory a) = 0%nat ->
  train W n_episodes n_iterations_per_episode a
  = (Raise (PyException "replay memory is empty.  Please pre-train agent"), a).
Proof.
  intros H; unfold train, bind, get; rewrite H; reflexivity.
Qed.

End Construction.

Lemma train_empty_buffer_witness :
  replay_len (replay_memory (Toy.agent 10 4)) = 0%nat
  /\ train Toy.world 50 20 (Toy.agent 10 4)
     = (Raise (PyException "replay memory is empty.  Please pre-train agent"),
        Toy.agent 10 4).
Proof.
  split; [reflexivity | apply (train_empty_buffer Toy.world); reflexivity].
Defined.

(** ** The epsilon schedule *)

Section Exploration.

Variable W : World.

Lemma update_epsilon_warm (a : Agent W) :
  (episode_count a < warmup_steps a)%Z -> warmup_steps a <> 0%Z ->
  update_epsilon W a
  = (Ok tt, set_episode_count (episode_count a + 1)
              (set_epsilon (warmup_epsilon a (episode_count a)) a)).
Proof.
  intros Hlt Hnz; unfold update_epsilon; run_monad.
  apply Z.ltb_lt in Hlt; rewrite Hlt.
  apply Z.eqb_neq in Hnz; rewrite Hnz.
  reflexivity.
Qed.

Lemma update_epsilon_cold (a : Agent W) :
  (warmup_steps a <= episode_count a)%Z ->
  update_epsilon W a
  = (Ok tt,
     set_episode_count (episode_count a + 1)
       (set_epsilon
          (Rmax (epsilon_min a)
                (epsilon a * exp (- epsilon_decay_rate a
                                  * IZR (episode_count a - warmup_steps a)))) a)).
Proof.
  intros Hle; unfold update_epsilon; run_monad.
  apply Z.ltb_ge in Hle; rewrite Hle.
  reflexivity.
Qed.

Lemma update_epsilon_counts (a a' : Agent W) (r : unit) :
  update_epsilon W a = (Ok r, a') ->
  episode_count a' = (episode_count a + 1)%Z.
Proof.
  unfold update_epsilon; run_monad.
  destruct (episode_count a <? warmup_steps a)%Z.
  - destruct (warmup_steps a =? 0)%Z; [discriminate|].
    intros H; injection H as _ <-; reflexivity.
  - intros H; injection H as _ <-; reflexivity.
Qed.

(** [k + 1] applications inside the warm-up, from a counter at [episode_count a]. *)
Lemma update_epsilon_warmup_run (k : nat) (a : Agent W) :
  (episode_count a + Z.of_nat k < warmup_steps a)%Z -> warmup_steps a <> 0%Z ->
  repeat_m (S k) (update_epsilon W) a
  = (Ok tt, set_episode_count (episode_count a + Z.of_nat k + 1)
              (set_epsilon (warmup_epsilon a (episode_count a + Z.of_nat k)) a)).
Proof.
  revert a; induction k as [|k IH]; intros a Hlt Hnz.
  - simpl repeat_m; run_monad.
    rewrite update_epsilon_warm by lia.
    rewrite Z.add_0_r; reflexivity.
  - change (repeat_m (S (S k)) (update_epsilon W))
      with (bind (update_epsilon W) (fun _ => repeat_m (S k) (update_epsilon W))).
    unfold bind at 1.
    rewrite update_epsilon_warm by lia.
    rewrite IH by (simpl; lia).
    simpl episode_count; unfold warmup_epsilon; simpl.
    replace (episode_count a + 1 + Z.of_nat k + 1)%Z
      with (episode_count a + Z.pos (Pos.of_succ_nat k) + 1)%Z by lia.
    replace (episode_count a + 1 + Z.of_nat k)%Z
      with (episode_count a + Z.pos (Pos.of_succ_nat k))%Z by lia.
    reflexivity.
Qed.

(** The whole warm-up from a counter at zero. *)
Lemma update_epsilon_after_warmup (a : Agent W) :
  episode_count a = 0%Z -> (0 < warmup_steps a)%Z ->
  repeat_m (Z.to_nat (warmup_steps a)) (update_epsilon W) a
  = (Ok tt, set_episode_count (warmup_steps a)
              (set_epsilon (warmup_epsilon a (warmup_steps a - 1)) a)).
Proof.
  intros H0 Hpos.
  destruct (Z.to_nat (warmup_steps a)) as [|k] eqn:Hk; [lia|].
  rewrite update_epsilon_warmup_run by lia.
  rewrite H0.
  replace (0 + Z.of_nat k + 1)%Z with (warmup_steps a) by lia.
  replace (0 + Z.of_nat k)%Z with (warmup_steps a - 1)%Z by lia.
  reflexivity.
Qed.

(** C3, amended.  From a counter at zero and a positive [warmup_steps],
    [warmup_steps] applications of [update_epsilon] leave [epsilon] at the
    value of the linear ramp for the counter [warmup_steps - 1], that is
    [0.5 + (epsilon_max - 0.5) / warmup_steps], and the counter at
    [warmup_steps].  Every application at or after the end of the warm-up
    sets [epsilon] to the larger of [epsilon_min] and [epsilon] times
    [exp(-decay_rate * (episode_count - warmup_steps))], so never below
    [epsilon_min].  Every application that returns adds one to
    [episode_count]. *)
Theorem update_epsilon_schedule (a : Agent W) :
  episode_count a = 0%Z -> (0 < warmup_steps a)%Z ->
  (exists a',
     repeat_m (Z.to_nat (warmup_steps a)) (update_epsilon W) a = (Ok tt, a')
     /\ epsilon a' = 5 / 10 + (epsilon_max a - 5 / 10) / IZR (warmup_steps a)
     /\ episode_count a' = warmup_steps a)
  /\ (forall b : Agent W,
        (warmup_steps b <= episode_count b)%Z ->
        exists b',
          update_epsilon W b = (Ok tt, b')
          /\ epsilon b'
             = Rmax (epsilon_min b)
                    (epsilon b * exp (- epsilon_decay_rate b
                                      * IZR (episode_count b - warmup_steps b)))
          /\ epsilon_min b <= epsilon b')
  /\ (forall (b b' : Agent W) (r : unit),
        update_epsilon W b = (Ok r, b') ->
        episode_count b' = (episode_count b + 1)%Z).
Proof.
  intros H0 Hpos; repeat split.
  - eexists; split; [apply update_epsilon_after_warmup; assumption|].
    split; [|reflexivity].
    simpl; unfold warmup_epsilon.
    rewrite minus_IZR.
    assert (IZR (warmup_steps a) <> 0) by (apply not_0_IZR; lia).
    field; assumption.
  - intros b Hb; eexists; split; [apply update_epsilon_cold; assumption|].
    split; [reflexivity | simpl; apply Rmax_l].
  - intros b b' r; apply update_epsilon_counts.
Qed.

End Exploration.

Lemma update_epsilon_schedule_witness :
  episode_count (Toy.agent 10 4) = 0%Z
  /\ (0 < warmup_steps (Toy.agent 10 4))%Z
  /\ exists a',
       repeat_m (Z.to_nat (warmup_steps (Toy.agent 10 4)))
                (update_epsilon Toy.world) (Toy.agent 10 4) = (Ok tt, a')
       /\ epsilon a' = 5 / 10 + (epsilon_max (Toy.agent 10 4) - 5 / 10)
                                / IZR (warmup_steps (Toy.agent 10 4))
       /\ episode_count a' = warmup_steps (Toy.agent 10 4).
Proof.
  split; [reflexivity|]; split; [reflexivity|].
  exact (proj1 (update_epsilon_schedule Toy.world (Toy.agent 10 4)
                  eq_refl eq_refl)).
Defined.

(** C3 as it was stated fails: a freshly constructed agent has
    [epsilon = epsilon_max = 1], a counter at zero and 6000 warm-up steps,
    and after 6000 applications its [epsilon] is [1 - (0.5 / 6000) * 5999],
    not [0.5]. *)
Lemma update_epsilon_misses_one_half :
  epsilon (Toy.agent 10 4) = epsilon_max (Toy.agent 10 4)
  /\ episode_count (Toy.agent 10 4) = 0%Z
  /\ ~ (exists a',
          repeat_m (Z.to_nat (warmup_steps (Toy.agent 10 4)))
                   (update_epsilon Toy.world) (Toy.agent 10 4) = (Ok tt, a')
          /\ epsilon a' = 5 / 10).
Proof.
  split; [reflexivity|]; split; [reflexivity|].
  intros [a' [Hrun Heps]].
  rewrite (update_epsilon_after_warmup Toy.world (Toy.agent 10 4) eq_refl eq_refl)
    in Hrun.
  injection Hrun as <-.
  simpl in Heps; unfold warmup_epsilon in Heps; simpl in Heps.
  lra.
Qed.

(** ** Action selection *)

Section SelectAction.

Variable W : World.

Lemma ou_noise_sample_eq (a : Agent W) :
  ou_noise_sample W a
  = (Ok (fst (OrnsteinUhlenbeckNoise.sample (ou_noise a)
                (map (np_random_randn W (rng a))
                     (seq 0 (OrnsteinUhlenbeckNoise.size (ou_noise a)))))),
     after_noise_sample a).
Proof. reflexivity. Qed.

(** The class of the noise process has no [decay_sigma]. *)
Lemma ou_noise_call_decay_sigma (a : Agent W) :
  ou_noise_call W "decay_sigma" a = (Raise (AttributeError "decay_sigma"), a).
Proof. reflexivity. Qed.

Lemma ou_noise_call_reset (a : Agent W) :
  ou_noise_call W "reset" a
  = (Ok tt, set_ou_noise (OrnsteinUhlenbeckNoise.reset (ou_noise a)) a).
Proof. reflexivity. Qed.

(** The agent has [select_uniform_action] and no [get_uniform_action]. *)
Lemma self_method_get_uniform_action (a : Agent W) :
  self_method W "get_uniform_action" a
  = (Raise (AttributeError "get_uniform_action"), a).
Proof. reflexivity. Qed.

(** The exception of the noise path: the one of the in-place addition
    when the sample does not fit the logits, else the missing method. *)
Lemma select_action_noise_path (state : Obs W * Tensor) (action_type : string)
  (a : Agent W) :
  action_type = "ou"%string
  \/ (action_type = "hybrid"%string /\ (warmup_steps a <= episode_count a)%Z) ->
  select_action W state true action_type a
  = (Raise
       match inplace2 Rplus (actor_forward W (actor a) state)
               (fst (OrnsteinUhlenbeckNoise.sample (ou_noise a)
                       (map (np_random_randn W (rng a))
                            (seq 0 (OrnsteinUhlenbeckNoise.size (ou_noise a))))))
       with
       | Ok _ => AttributeError "decay_sigma"
       | Raise e => e
       end,
     after_noise_sample a).
Proof.
  intros H.
  assert (Hty : (String.eqb action_type "hybrid"
                 && (episode_count a <? warmup_steps a)%Z) = false
                /\ (if String.eqb action_type "hybrid" then "ou"%string
                    else action_type) = "ou"%string).
  { destruct H as [-> | [-> Hc]]; split; try reflexivity.
    apply Z.ltb_ge in Hc; rewrite Hc; reflexivity. }
  destruct Hty as [Hb Hou].
  unfold select_action, select_action_weights; run_monad.
  rewrite Hb, Hou.
  change (String.eqb "ou" "ou") with true; cbv beta iota.
  rewrite ou_noise_sample_eq.
  destruct (inplace2 Rplus _ _) as [logits|e]; [|reflexivity].
  rewrite ou_noise_call_decay_sigma; reflexivity.
Qed.

Lemma inplace2_raises (f : R -> R -> R) (x y : Tensor) (e : exn) :
  inplace2 f x y = Raise e -> e = RuntimeError.
Proof.
  unfold inplace2; destruct (Nat.eqb _ _); [discriminate|].
  destruct y as [|y0 [|y1 y]]; intros H; try discriminate;
    injection H as <-; reflexivity.
Qed.

(** C4, as the code has it.  With exploration on, in mode ["ou"] and in
    mode ["hybrid"] once the counter has reached [warmup_steps],
    [select_action] takes one sample of the noise process, adds it to the
    logits and then raises: [RuntimeError] when the sample does not fit the
    logits, and otherwise [AttributeError] at [self.ou_noise.decay_sigma()],
    a method the class of the noise process does not have.  No action is
    returned and [sigma] is what it was. *)
Theorem select_action_ou_raises (state : Obs W * Tensor) (action_type : string)
  (a : Agent W) :
  action_type = "ou"%string
  \/ (action_type = "hybrid"%string /\ (warmup_steps a <= episode_count a)%Z) ->
  exists e a',
    select_action W state true action_type a = (Raise e, a')
    /\ (e = RuntimeError \/ e = AttributeError "decay_sigma")
    /\ OrnsteinUhlenbeckNoise.sigma (ou_noise a')
       = OrnsteinUhlenbeckNoise.sigma (ou_noise a).
Proof.
  intros H.
  rewrite (select_action_noise_path state action_type a H).
  eexists; eexists; split; [reflexivity|]; split; [|reflexivity].
  destruct (inplace2 Rplus _ _) as [logits|e] eqn:Hadd; [now right | left].
  eapply inplace2_raises; eassumption.
Qed.

(** In mode ["hybrid"] during the warm-up the action is the uniform draw
    over all assets divided by its sum, and the counter moves on. *)
Lemma select_action_weights_hybrid_warm (state : Obs W * Tensor) (a : Agent W) :
  (episode_count a < warmup_steps a)%Z ->
  select_action_weights W state true "hybrid" a
  = (let uniform_vec :=
       map (np_random_uniform W (rng a)) (seq 0 (m_assets (portfolio a))) in
     Ok (map (fun u => u / tsum uniform_vec) uniform_vec),
     set_episode_count (episode_count a + 1) (set_rng (S (rng a)) a)).
Proof.
  intros Hlt; apply Z.ltb_lt in Hlt.
  unfold select_action_weights; run_monad.
  eval_strings; rewrite Hlt; reflexivity.
Qed.

(** In mode ["greedy"] a draw below [epsilon] sends the method to
    [self.get_uniform_action]. *)
Lemma select_action_weights_greedy_explore (state : Obs W * Tensor) (a : Agent W) :
  np_random_rand W (rng a) < epsilon a ->
  select_action_weights W state true "greedy" a
  = (Raise (AttributeError "get_uniform_action"), set_rng (S (rng a)) a).
Proof.
  intros Hlt.
  unfold select_action_weights; run_monad.
  eval_strings; unfold draw_rand; cbv beta iota.
  destruct (Rlt_dec (np_random_rand W (rng a)) (epsilon a)) as [_|Hn];
    [reflexivity | contradiction].
Qed.

Lemma select_action_weights_greedy_exploit (state : Obs W * Tensor) (a : Agent W) :
  ~ np_random_rand W (rng a) < epsilon a ->
  select_action_weights W state true "greedy" a
  = (Ok (softmax (actor_forward W (actor a) state)), set_rng (S (rng a)) a).
Proof.
  intros Hge.
  unfold select_action_weights; run_monad.
  eval_strings; unfold draw_rand; cbv beta iota.
  destruct (Rlt_dec (np_random_rand W (rng a)) (epsilon a)) as [Hlt|_];
    [contradiction | reflexivity].
Qed.

Lemma select_action_weights_deterministic (state : Obs W * Tensor)
  (action_type : string) (a : Agent W) :
  select_action_weights W state false action_type a
  = (Ok (softmax (actor_forward W (actor a) state)), a).
Proof. reflexivity. Qed.

(** C5, as the code has it.  In mode ["greedy"] with exploration on, a draw
    below [epsilon] makes [select_action] raise [AttributeError]: the method
    it calls, [get_uniform_action], does not exist (the uniform draw is
    [select_uniform_action]).  No action is returned, and neither [epsilon]
    nor the counter has moved.  A draw that is not below [epsilon] returns
    the softmax of the logits without its first entry. *)
Theorem select_action_greedy (state : Obs W * Tensor) (a : Agent W) :
  (np_random_rand W (rng a) < epsilon a ->
   select_action W state true "greedy" a
   = (Raise (AttributeError "get_uniform_action"), set_rng (S (rng a)) a))
  /\ (~ np_random_rand W (rng a) < epsilon a ->
      select_action W state true "greedy" a
      = (Ok (drop_first (softmax (actor_forward W (actor a) state))),
         set_rng (S (rng a)) a)).
Proof.
  split; intros H; unfold select_action, bind.
  - rewrite select_action_weights_greedy_explore by assumption; reflexivity.
  - rewrite select_action_weights_greedy_exploit by assumption; reflexivity.
Qed.

(** C7.  Whatever [select_action] returns is the tail of a vector on the
    simplex: when the uniform draws are not negative and not all zero and
    the actor emits at least one logit, the vector [action] of every
    [return] that is reached has no negative entry and entries that add up
    to one. *)
Theorem select_action_weights_on_simplex (state : Obs W * Tensor)
  (exploration : bool) (action_type : string) (a a' : Agent W) (v : Tensor) :
  (forall k j, 0 <= np_random_uniform W k j) ->
  (forall k, 0 < tsum (map (np_random_uniform W k)
                           (seq 0 (m_assets (portfolio a))))) ->
  (forall theta s, actor_forward W theta s <> []) ->
  select_action_weights W state exploration action_type a = (Ok v, a') ->
  on_simplex v.
Proof.
  intros Hu Hs Hact.
  assert (Hsoft : on_simplex (softmax (actor_forward W (actor a) state)))
    by (apply softmax_on_simplex, Hact).
  assert (Huni : on_simplex
            (map (fun u => u / tsum (map (np_random_uniform W (rng a))
                                         (seq 0 (m_assets (portfolio a)))))
                 (map (np_random_uniform W (rng a))
                      (seq 0 (m_assets (portfolio a)))))).
  { apply normalised_on_simplex; [|apply Hs].
    apply Forall_forall; intros y Hy.
    apply in_map_iff in Hy as [j [<- _]]; apply Hu. }
  destruct exploration.
  2:{ rewrite select_action_weights_deterministic.
      intros H; injection H as <- _; assumption. }
  destruct (String.eqb action_type "hybrid") eqn:Ehy.
  - apply String.eqb_eq in Ehy; subst action_type.
    destruct (Z.lt_ge_cases (episode_count a) (warmup_steps a)) as [Hlt|Hge].
    + rewrite select_action_weights_hybrid_warm by assumption.
      cbv zeta; intros H; injection H as <- _; assumption.
    + intros H.
      pose proof (select_action_noise_path state "hybrid" a
                    (or_intror (conj eq_refl Hge))) as Hn.
      unfold select_action, bind in Hn; rewrite H in Hn; discriminate.
  - destruct (String.eqb action_type "ou") eqn:Eou.
    + apply String.eqb_eq in Eou; subst action_type.
      intros H.
      pose proof (select_action_noise_path state "ou" a (or_introl eq_refl)) as Hn.
      unfold select_action, bind in Hn; rewrite H in Hn; discriminate.
    + unfold select_action_weights; run_monad.
      rewrite Ehy, Eou; cbv beta iota; unfold andb.
      destruct (String.eqb action_type "greedy").
      * unfold draw_rand; cbv beta iota.
        destruct (Rlt_dec (np_random_rand W (rng a)) (epsilon a));
          [discriminate|].
        intros H; injection H as <- _; assumption.
      * intros H; injection H as <- _; assumption.
Qed.

End SelectAction.

Lemma select_action_ou_raises_witness :
  exists e a',
    select_action Toy.world (tt, [0; 0]) true "ou" (Toy.agent 10 4) = (Raise e, a')
    /\ (e = RuntimeError \/ e = AttributeError "decay_sigma")
    /\ OrnsteinUhlenbeckNoise.sigma (ou_noise a')
       = OrnsteinUhlenbeckNoise.sigma (ou_noise (Toy.agent 10 4)).
Proof.
  exact (select_action_ou_raises Toy.world (tt, [0; 0]) "ou" (Toy.agent 10 4)
           (or_introl eq_refl)).
Defined.

Lemma select_action_weights_on_simplex_witness :
  on_simplex (softmax [0; 0; 0]).
Proof.
  apply (select_action_weights_on_simplex Toy.world (tt, [0; 0]) false "greedy"
           (Toy.agent 10 4) (Toy.agent 10 4)).
  - intros k j; simpl; lra.
  - intros k; simpl; lra.
  - intros theta s; simpl; discriminate.
  - reflexivity.
Defined.

Lemma select_action_greedy_witness :
  np_random_rand Toy.world (rng (Toy.agent 10 4)) < epsilon (Toy.agent 10 4)
  /\ select_action Toy.world (tt, [0; 0]) true "greedy" (Toy.agent 10 4)
     = (Raise (AttributeError "get_uniform_action"),
        set_rng (S (rng (Toy.agent 10 4))) (Toy.agent 10 4)).
Proof.
  assert (H : np_random_rand Toy.world (rng (Toy.agent 10 4))
              < epsilon (Toy.agent 10 4)) by (simpl; lra).
  split; [exact H|].
  exact (proj1 (select_action_greedy Toy.world (tt, [0; 0]) (Toy.agent 10 4)) H).
Defined.

(** ** Populating the replay buffer *)

Lemma for_each_app {S A : Type} (xs ys : list A) (body : A -> M S unit) (s : S) :
  for_each (xs ++ ys) body s
  = bind (for_each xs body) (fun _ => for_each ys body) s.
Proof.
  revert s; induction xs as [|x xs IH]; intros s; simpl; [reflexivity|].
  unfold bind in *.
  destruct (body x s) as [[u|e] s']; [rewrite IH|]; reflexivity.
Qed.

Lemma replay_add_len {Obs : Type} (m : PrioritizedReplayMemory Obs)
  (e : Experience Obs) (p : R) :
  (replay_len m < capacity m)%nat ->
  replay_len (replay_add m e p) = S (replay_len m).
Proof.
  unfold replay_len, replay_add; intros Hlt.
  cbv zeta; simpl entries.
  rewrite length_skipn, length_app; simpl; lia.
Qed.

Section PreTrain.

Variable W : World.

Lemma pre_train_step_warm (kraken_ds : Dataset (Obs W)) (i : nat) (a : Agent W) :
  (episode_count a < warmup_steps a)%Z ->
  (replay_len (replay_memory a) < capacity (replay_memory a))%nat ->
  exists a', pre_train_step W kraken_ds i a = (Ok tt, a') /\ filled_by 1 a a'.
Proof.
  intros Hc Hr.
  unfold pre_train_step.
  destruct (ds_getitem kraken_ds (Z.of_nat i - 1)) as [xt prev_index].
  destruct (ds_getitem kraken_ds (Z.of_nat i)) as [xt_next j].
  unfold select_action; run_monad.
  rewrite select_action_weights_hybrid_warm by assumption.
  cbv zeta; eexists; split; [reflexivity|].
  unfold filled_by; simpl.
  rewrite replay_add_len by assumption.
  repeat split; lia.
Qed.

Lemma pre_train_step_cold (kraken_ds : Dataset (Obs W)) (i : nat) (a : Agent W) :
  (warmup_steps a <= episode_count a)%Z ->
  exists e,
    pre_train_step W kraken_ds i a = (Raise e, after_noise_sample a)
    /\ (e = RuntimeError \/ e = AttributeError "decay_sigma").
Proof.
  intros Hc.
  unfold pre_train_step.
  destruct (ds_getitem kraken_ds (Z.of_nat i - 1)) as [xt prev_index].
  destruct (ds_getitem kraken_ds (Z.of_nat i)) as [xt_next j].
  run_monad.
  rewrite (select_action_noise_path W _ "hybrid" a (or_intror (conj eq_refl Hc))).
  eexists; split; [reflexivity|].
  destruct (inplace2 Rplus _ _) as [logits|e] eqn:Hadd; [now right | left].
  eapply inplace2_raises; eassumption.
Qed.

Lemma filled_by_trans (j k : nat) (a b c : Agent W) :
  filled_by j a b -> filled_by k b c -> filled_by (j + k) a c.
Proof.
  unfold filled_by; intros (H1 & H2 & H3 & H4) (K1 & K2 & K3 & K4).
  repeat split; try congruence; lia.
Qed.

(** As long as the warm-up lasts and the buffer has room, every round of
    the loop stores one experience. *)
Lemma pre_train_loop_warm (kraken_ds : Dataset (Obs W)) (xs : list nat)
  (a : Agent W) :
  (episode_count a + Z.of_nat (length xs) <= warmup_steps a)%Z ->
  (replay_len (replay_memory a) + length xs <= capacity (replay_memory a))%nat ->
  exists a',
    for_each xs (pre_train_step W kraken_ds) a = (Ok tt, a')
    /\ filled_by (length xs) a a'.
Proof.
  revert a; induction xs as [|x xs IH]; intros a Hc Hr.
  - exists a; split; [reflexivity|].
    unfold filled_by; simpl; repeat split; lia.
  - simpl length in *.
    destruct (pre_train_step_warm kraken_ds x a) as [a1 [E1 F1]]; try lia.
    pose proof F1 as (K1 & K2 & K3 & K4).
    destruct (IH a1) as [a2 [E2 F2]]; try lia.
    exists a2; split.
    + simpl; unfold bind; rewrite E1; exact E2.
    + exact (filled_by_trans 1 (length xs) a a1 a2 F1 F2).
Qed.

(** The loop of [pre_train] when the warm-up ends [k] rounds into it. *)
Lemma pre_train_loop_overrun (kraken_ds : Dataset (Obs W)) (k r : nat)
  (a : Agent W) :
  (episode_count a + Z.of_nat k = warmup_steps a)%Z ->
  (replay_len (replay_memory a) + k <= capacity (replay_memory a))%nat ->
  exists e a',
    for_each (seq 1 (k + S r)) (pre_train_step W kraken_ds) a = (Raise e, a')
    /\ (e = RuntimeError \/ e = AttributeError "decay_sigma")
    /\ replay_len (replay_memory a') = (replay_len (replay_memory a) + k)%nat.
Proof.
  intros Hc Hr.
  rewrite seq_app, for_each_app.
  destruct (pre_train_loop_warm kraken_ds (seq 1 k) a) as [a1 [E1 F1]];
    rewrite ?length_seq; try lia.
  rewrite length_seq in F1; destruct F1 as (K1 & K2 & K3 & K4).
  unfold bind at 1; rewrite E1.
  destruct (pre_train_step_cold kraken_ds (S k) a1) as [e [E2 He]]; [lia|].
  exists e, (after_noise_sample a1); split; [|split; [exact He | exact K4]].
  simpl; unfold bind; rewrite E2; reflexivity.
Qed.

(** C1, as the code has it.  When the warm-up ends before the loop of
    [pre_train] does ([k] warm-up rounds are left and the dataset asks for
    [n_samples + 48 > k] rounds), round [k + 1] takes the noise path of
    [select_action] and raises there.  [pre_train] ends with that exception,
    not with its assertion, and the buffer has grown by [k] entries instead
    of [n_samples + 48]. *)
Theorem pre_train_beyond_warmup (a : Agent W) (k : nat) :
  (episode_count a + Z.of_nat k = warmup_steps a)%Z ->
  (k < ds_len (KrakenDataSet W (portfolio a) (window_size a) (step_size a)) + 48)%nat ->
  (replay_len (replay_memory a) + k <= capacity (replay_memory a))%nat ->
  exists e a',
    pre_train W a = (Raise e, a')
    /\ (e = RuntimeError \/ e = AttributeError "decay_sigma")
    /\ replay_len (replay_memory a') = (replay_len (replay_memory a) + k)%nat.
Proof.
  intros Hc Hk Hr.
  unfold pre_train; run_monad.
  rewrite ou_noise_call_reset.
  set (ds := KrakenDataSet W (portfolio a) (window_size a) (step_size a)) in *.
  set (a0 := set_ou_noise (OrnsteinUhlenbeckNoise.reset (ou_noise a)) a).
  replace (ds_len ds + 48)%nat with (k + S (ds_len ds + 48 - S k))%nat by lia.
  destruct (pre_train_loop_overrun ds k (ds_len ds + 48 - S k) a0)
    as [e [a' [E [He Hl]]]]; [exact Hc | exact Hr |].
  rewrite E; exists e, a'; repeat split; assumption.
Qed.

(** Inside the warm-up, with an empty buffer that is large enough,
    [pre_train] returns and the buffer holds [n_samples + 48] entries. *)
Lemma pre_train_within_warmup (a : Agent W) :
  let n := ds_len (KrakenDataSet W (portfolio a) (window_size a) (step_size a)) in
  (episode_count a + Z.of_nat (n + 48) <= warmup_steps a)%Z ->
  replay_len (replay_memory a) = 0%nat ->
  (n + 48 <= capacity (replay_memory a))%nat ->
  exists a',
    pre_train W a = (Ok tt, a')
    /\ replay_len (replay_memory a') = (n + 48)%nat.
Proof.
  intros n Hc H0 Hr.
  unfold pre_train; run_monad.
  rewrite ou_noise_call_reset.
  fold n.
  set (ds := KrakenDataSet W (portfolio a) (window_size a) (step_size a)) in *.
  set (a0 := set_ou_noise (OrnsteinUhlenbeckNoise.reset (ou_noise a)) a).
  destruct (pre_train_loop_warm ds (seq 1 (n + 48)) a0) as [a1 [E1 F1]];
    rewrite ?length_seq; [exact Hc | simpl; lia |].
  rewrite length_seq in F1; destruct F1 as (K1 & K2 & K3 & K4).
  rewrite E1.
  assert (Hlen : replay_len (replay_memory a1) = (n + 48)%nat)
    by (rewrite K4; simpl; lia).
  rewrite Hlen, Nat.eqb_refl.
  exists a1; split; [reflexivity | exact Hlen].
Qed.

(** A normal return of [pre_train] has passed the assertion on the length
    of the buffer. *)
Lemma pre_train_returns_checked (a a' : Agent W) (r : unit) :
  pre_train W a = (Ok r, a') ->
  replay_len (replay_memory a')
  = (ds_len (KrakenDataSet W (portfolio a) (window_size a) (step_size a)) + 48)%nat.
Proof.
  unfold pre_train; run_monad.
  rewrite ou_noise_call_reset.
  destruct (for_each _ _ _) as [[u|e] a1]; [|discriminate].
  destruct (Nat.eqb _ _) eqn:E; [|discriminate].
  intros H; injection H as _ <-.
  apply Nat.eqb_eq; exact E.
Qed.

End PreTrain.

Lemma pre_train_beyond_warmup_witness :
  exists e a',
    pre_train Toy.world (Toy.agent 5953 4) = (Raise e, a')
    /\ (e = RuntimeError \/ e = AttributeError "decay_sigma")
    /\ replay_len (replay_memory a')
       = (replay_len (replay_memory (Toy.agent 5953 4)) + 6000)%nat.
Proof.
  apply (pre_train_beyond_warmup Toy.world (Toy.agent 5953 4) 6000).
  - vm_compute; reflexivity.
  - apply Nat.ltb_lt; vm_compute; reflexivity.
  - apply Nat.leb_le; vm_compute; reflexivity.
Defined.

(** ** The critic step *)

Lemma tmean_scale (c : R) (t : Tensor) : tmean (tscale c t) = c * tmean t.
Proof.
  unfold tmean; rewrite tsum_scale.
  unfold tscale; rewrite length_map; unfold Rdiv; ring.
Qed.

Lemma tsum_squares_nonneg (t : Tensor) : 0 <= tsum (map (fun x => x * x) t).
Proof.
  apply tsum_nonneg, Forall_forall; intros y Hy.
  apply in_map_iff in Hy as [x [<- _]]; nra.
Qed.

Lemma total_norm_nonneg (g : Params) : 0 <= total_norm g.
Proof. apply sqrt_pos. Qed.

Lemma total_norm_scale (c : R) (g : Params) :
  0 <= c -> total_norm (map (tscale c) g) = c * total_norm g.
Proof.
  intros Hc; unfold total_norm.
  change (map (tscale c) g) with (map (map (Rmult c)) g).
  rewrite <- concat_map, map_map.
  replace (map (fun x => c * x * (c * x)) (concat g))
    with (tscale (c * c) (map (fun x => x * x) (concat g))).
  - rewrite tsum_scale, sqrt_mult; [|nra|apply tsum_squares_nonneg].
    rewrite sqrt_square by assumption; reflexivity.
  - unfold tscale; rewrite map_map; apply map_ext; intros; ring.
Qed.

(** After clipping to [1] the gradient has norm at most [1]. *)
Lemma clip_grad_norm_bound (g : Params) : total_norm (clip_grad_norm_ g 1) <= 1.
Proof.
  unfold clip_grad_norm_; cbv zeta.
  pose proof (total_norm_nonneg g) as Hn.
  set (n := total_norm g) in *.
  assert (Hpos : 0 < n + 1 / 1000000) by lra.
  assert (Hc : 0 < 1 / (n + 1 / 1000000)) by (apply Rdiv_lt_0_compat; lra).
  assert (Hmin : 0 <= Rmin (1 / (n + 1 / 1000000)) 1)
    by (apply Rmin_glb; lra).
  rewrite total_norm_scale by assumption; fold n.
  apply Rle_trans with (1 / (n + 1 / 1000000) * n).
  - apply Rmult_le_compat_r; [assumption | apply Rmin_l].
  - apply Rmult_le_reg_r with (n + 1 / 1000000); [assumption|].
    replace (1 / (n + 1 / 1000000) * n * (n + 1 / 1000000)) with n
      by (field; lra).
    lra.
Qed.

Lemma zip_with_map_left {A B C D : Type} (f : C -> B -> D) (g : A -> C)
  (xs : list A) (ys : list B) :
  zip_with f (map g xs) ys = zip_with (fun x y => f (g x) y) xs ys.
Proof.
  revert ys; induction xs as [|x xs IH]; intros [|y ys]; simpl; auto.
  rewrite IH; reflexivity.
Qed.

Section Steps.

Variable W : World.

Lemma critic_td_error_formula (theta : Params) (batch_size : Z)
  (experience : ExperienceBatch (ObsB W)) :
  let q := critic_forward W theta
             (fst (b_state experience), map cat_cash (snd (b_state experience)))
             (map cat_cash (b_action experience)) in
  length q = length (b_reward experience) ->
  critic_td_error W theta batch_size experience
  = Ok (zip_with (fun r qi => r / IZR batch_size - qi) (b_reward experience) q).
Proof.
  intros q Hlen; unfold critic_td_error.
  destruct (b_state experience) as [xt prev]; simpl in q.
  fold q; unfold broadcast2.
  rewrite length_map, <- Hlen, Nat.eqb_refl.
  rewrite zip_with_map_left; reflexivity.
Qed.

(** C2, amended.  When the critic returns one value per sample,
    [train_critic] returns the TD errors [reward / batch_size - q] (with
    [q] the critic at the state and the action, both with the cash weight
    put back, and no term for the next state) and, as the loss, the mean of
    the squared TD errors times the mean of the importance weights: the
    code averages the squares first, multiplies that one number by every
    weight and averages again.  The gradient it leaves on the critic has
    been clipped to norm at most [1], and the critic's parameters are those
    of one optimiser step with it. *)
Theorem train_critic_step (experience : ExperienceBatch (ObsB W))
  (is_weights : Tensor) (a : Agent W) :
  let q := critic_forward W (critic a)
             (fst (b_state experience), map cat_cash (snd (b_state experience)))
             (map cat_cash (b_action experience)) in
  let td_error := zip_with (fun r qi => r / IZR (batch_size a) - qi)
                           (b_reward experience) q in
  length q = length (b_reward experience) ->
  exists a' g,
    train_critic W experience is_weights a
    = (Ok (td_error, tmean (map (fun e => e * e) td_error) * tmean is_weights), a')
    /\ critic_grad a' = Some g
    /\ total_norm g <= 1
    /\ critic a' = snd (Adam_step W (critic_optimizer a) (critic a) g)
    /\ (forall next_state',
          train_critic W
            (mkBatch (b_state experience) (b_action experience)
                     (b_reward experience) next_state'
                     (b_previous_index experience)) is_weights a
          = train_critic W experience is_weights a).
Proof.
  intros q td_error Hlen.
  assert (Hns : forall next_state',
            train_critic W
              (mkBatch (b_state experience) (b_action experience)
                       (b_reward experience) next_state'
                       (b_previous_index experience)) is_weights a
            = train_critic W experience is_weights a) by reflexivity.
  revert Hns.
  unfold train_critic at 3; run_monad.
  simpl critic; simpl batch_size.
  rewrite (critic_td_error_formula (critic a) (batch_size a) experience Hlen).
  fold q; fold td_error.
  unfold critic_loss_of; cbv zeta; rewrite tmean_scale.
  simpl.
  destruct (Adam_step W (critic_optimizer a) (critic a) _) as [s p] eqn:Est.
  intros Hns; eexists; eexists; split; [reflexivity|].
  simpl; split; [reflexivity|]; split; [apply clip_grad_norm_bound|].
  split; [rewrite Est; reflexivity | exact Hns].
Qed.

(** ** The actor step *)

(** C8, amended.  [train_actor] evaluates the critic at the state with the
    cash weight put back and at the whole softmax of the actor's logits,
    first entry included; its loss is minus the mean of these q-values,
    times the mean of the importance weights; the actor's parameters are
    those of one optimiser step with the gradient as [backward] left it,
    unclipped; the entropy of the predicted actions enters neither the
    result nor the agent; and the step returns the predicted actions
    without their first column, together with the loss. *)
Theorem train_actor_step (experience : ExperienceBatch (ObsB W))
  (is_weights : Tensor) (beta : R) (a : Agent W) :
  let predicted_actions :=
    map softmax (actor_forward_batch W (actor a) (b_state experience)) in
  let q_values :=
    critic_forward W (critic a)
      (fst (b_state experience), map cat_cash (snd (b_state experience)))
      predicted_actions in
  let g := autograd W
             (fun th => actor_objective W experience is_weights th (critic a))
             (actor a) in
  exists a',
    train_actor W experience is_weights beta a
    = (Ok (map drop_first predicted_actions, - tmean q_values * tmean is_weights),
       a')
    /\ actor_grad a' = Some g
    /\ actor a' = snd (Adam_step W (actor_optimizer a) (actor a) g)
    /\ critic a' = critic a.
Proof.
  intros predicted_actions q_values g.
  unfold train_actor; run_monad.
  unfold actor_loss_of; cbv zeta; rewrite tmean_scale.
  assert (Hq : actor_q_values W (actor a) (critic a) experience = q_values).
  { unfold actor_q_values, q_values, predicted_actions, actor_predicted_actions.
    destruct (b_state experience); reflexivity. }
  simpl actor; simpl critic; rewrite Hq.
  simpl.
  fold g.
  destruct (Adam_step W (actor_optimizer a) (actor a) g) as [s p] eqn:Est.
  eexists; split; [reflexivity|].
  simpl; repeat split.
Qed.

End Steps.

Lemma train_critic_step_witness :
  exists a' g,
    train_critic Toy.world Toy.batch2 Toy.weights2 (Toy.agent 10 2)
    = (Ok (zip_with (fun r qi => r / 2 - qi) [2; 0]
                    (map tsum (map cat_cash [[1; 0]; [1; 0]])),
           tmean (map (fun e => e * e)
                      (zip_with (fun r qi => r / 2 - qi) [2; 0]
                                (map tsum (map cat_cash [[1; 0]; [1; 0]]))))
           * tmean Toy.weights2), a')
    /\ critic_grad a' = Some g
    /\ total_norm g <= 1.
Proof.
  destruct (train_critic_step Toy.world Toy.batch2 Toy.weights2 (Toy.agent 10 2)
              eq_refl) as [a' [g [H1 [H2 [H3 _]]]]].
  exists a', g; repeat split; assumption.
Defined.

(** C2 as it was stated fails: on a batch of two samples with TD errors
    [0] and [-1] and importance weights [1] and [1/2], the loss of
    [train_critic] is [3/8], while the mean of the squared TD errors each
    multiplied by its own weight is [1/4]. *)
Lemma train_critic_loss_not_elementwise :
  exists td_error loss a',
    train_critic Toy.world Toy.batch2 Toy.weights2 (Toy.agent 10 2)
    = (Ok (td_error, loss), a')
    /\ loss <> spec_critic_loss td_error Toy.weights2.
Proof.
  eexists; eexists; eexists; split.
  - unfold train_critic, critic_td_error, broadcast2; run_monad; simpl.
    reflexivity.
  - unfold spec_critic_loss, critic_loss_of, tmean, tscale, Toy.weights2; simpl.
    lra.
Qed.

(** C8 as it was stated fails: with a critic that adds up the weights of
    the action it is given, the loss of [train_actor] on a batch of two is
    [-3/4], the value for the whole softmax vectors; at the non-cash part
    that the step returns the loss would be [-3/8]. *)
Lemma train_actor_uses_full_action :
  exists actions loss a',
    train_actor Toy.world Toy.batch2 Toy.weights2 (5 / 100) (Toy.agent 10 2)
    = (Ok (actions, loss), a')
    /\ loss <> actor_loss_of
                 (spec_actor_q_values Toy.world (actor (Toy.agent 10 2))
                    (critic (Toy.agent 10 2)) Toy.batch2)
                 Toy.weights2.
Proof.
  eexists; eexists; eexists; split.
  - unfold train_actor; run_monad; simpl.
    reflexivity.
  - unfold actor_loss_of, spec_actor_q_values, actor_q_values,
      actor_predicted_actions, softmax, tmean, tscale, Toy.weights2; simpl.
    rewrite exp_0.
    lra.
Qed.

(** * Further properties of the two files *)

(** ** The noise process *)

Lemma Forall2_chain {A : Type} (P Q T : A -> A -> Prop) (l1 l2 l3 : list A) :
  (forall x y z, P x y -> Q y z -> T x z) ->
  Forall2 P l1 l2 -> Forall2 Q l2 l3 -> Forall2 T l1 l3.
Proof.
  intros H H12; revert l3; induction H12 as [|x y l1 l2 Hxy H12 IH];
    intros l3 H23; inversion H23; subst; constructor; eauto.
Qed.

Lemma Forall2_zip_with_left {A B : Type} (P : A -> A -> Prop) (f : A -> B -> A)
  (xs : list A) (ys : list B) :
  length xs = length ys -> (forall x y, P x (f x y)) ->
  Forall2 P xs (zip_with f xs ys).
Proof.
  intros Hl Hf; revert ys Hl; induction xs as [|x xs IH]; intros [|y ys] Hl;
    simpl in *; try discriminate; constructor; auto.
Qed.

Lemma ou_sample_state (n : OrnsteinUhlenbeckNoise.t) (d : Tensor) :
  OrnsteinUhlenbeckNoise.state (snd (OrnsteinUhlenbeckNoise.sample n d))
  = zip_with (fun x r => x + (OrnsteinUhlenbeckNoise.theta n
                                * (OrnsteinUhlenbeckNoise.mu n - x)
                              + OrnsteinUhlenbeckNoise.sigma n * r))
             (OrnsteinUhlenbeckNoise.state n) d.
Proof.
  unfold OrnsteinUhlenbeckNoise.sample; simpl.
  generalize (OrnsteinUhlenbeckNoise.state n) as xs.
  unfold tscale; intros xs; revert d; induction xs as [|x xs IH];
    intros [|r d]; simpl; try reflexivity.
  rewrite IH; reflexivity.
Qed.

Lemma ou_sample_returns_state (n : OrnsteinUhlenbeckNoise.t) (d : Tensor) :
  fst (OrnsteinUhlenbeckNoise.sample n d)
  = OrnsteinUhlenbeckNoise.state (snd (OrnsteinUhlenbeckNoise.sample n d)).
Proof. reflexivity. Qed.

Lemma ou_sample_keeps_settings (n : OrnsteinUhlenbeckNoise.t) (d : Tensor) :
  let n' := snd (OrnsteinUhlenbeckNoise.sample n d) in
  OrnsteinUhlenbeckNoise.mu n' = OrnsteinUhlenbeckNoise.mu n
  /\ OrnsteinUhlenbeckNoise.theta n' = OrnsteinUhlenbeckNoise.theta n
  /\ OrnsteinUhlenbeckNoise.sigma n' = OrnsteinUhlenbeckNoise.sigma n
  /\ OrnsteinUhlenbeckNoise.size n' = OrnsteinUhlenbeckNoise.size n.
Proof. repeat split. Qed.

(** X1.  Right after [reset], a [sample] taken with [sigma = 0] returns
    [mu] in each of its [size] entries, whatever the normal draw was: the
    drift term vanishes at [mu]. *)
Theorem ou_reset_sample_without_noise (n : OrnsteinUhlenbeckNoise.t) (d : Tensor) :
  OrnsteinUhlenbeckNoise.sigma n = 0 ->
  length d = OrnsteinUhlenbeckNoise.size n ->
  let x := fst (OrnsteinUhlenbeckNoise.sample (OrnsteinUhlenbeckNoise.reset n) d) in
  length x = OrnsteinUhlenbeckNoise.size n
  /\ Forall (fun xi => xi = OrnsteinUhlenbeckNoise.mu n) x.
Proof.
  intros Hs Hd x; subst x.
  rewrite ou_sample_returns_state, ou_sample_state; simpl.
  rewrite Hs; unfold OrnsteinUhlenbeckNoise.ones_mu.
  rewrite <- Hd; clear Hd Hs.
  generalize (OrnsteinUhlenbeckNoise.mu n) (OrnsteinUhlenbeckNoise.theta n).
  intros m th; induction d as [|r d [IHl IHf]]; simpl; [split; [reflexivity|constructor]|].
  split; [rewrite IHl; reflexivity|].
  constructor; [ring | exact IHf].
Qed.

Lemma ou_reset_sample_without_noise_witness :
  let n := OrnsteinUhlenbeckNoise.init 3 (1 / 2) (20 / 100) 0 in
  let x := fst (OrnsteinUhlenbeckNoise.sample (OrnsteinUhlenbeckNoise.reset n)
                  [1; -2; 3]) in
  length x = 3%nat /\ Forall (fun xi => xi = 1 / 2) x.
Proof.
  exact (ou_reset_sample_without_noise
           (OrnsteinUhlenbeckNoise.init 3 (1 / 2) (20 / 100) 0) [1; -2; 3]
           eq_refl eq_refl).
Defined.

Lemma sample_many_settings (n : OrnsteinUhlenbeckNoise.t) (draws : list Tensor) :
  let n' := sample_many n draws in
  OrnsteinUhlenbeckNoise.mu n' = OrnsteinUhlenbeckNoise.mu n
  /\ OrnsteinUhlenbeckNoise.theta n' = OrnsteinUhlenbeckNoise.theta n
  /\ OrnsteinUhlenbeckNoise.sigma n' = OrnsteinUhlenbeckNoise.sigma n
  /\ OrnsteinUhlenbeckNoise.size n' = OrnsteinUhlenbeckNoise.size n.
Proof.
  revert n; induction draws as [|d draws IH]; intros n; simpl;
    [repeat split|].
  destruct (IH (snd (OrnsteinUhlenbeckNoise.sample n d))) as (H1 & H2 & H3 & H4).
  repeat split; assumption.
Qed.

(** X2.  Without noise ([sigma = 0]) the process decays geometrically
    towards [mu]: after [k] samples every entry is at [(1 - theta)^k] times
    its first distance from [mu]. *)
Theorem ou_mean_reversion (n : OrnsteinUhlenbeckNoise.t) (draws : list Tensor) :
  OrnsteinUhlenbeckNoise.sigma n = 0 ->
  Forall (fun d => length d = length (OrnsteinUhlenbeckNoise.state n)) draws ->
  Forall2 (fun x0 xk =>
             xk - OrnsteinUhlenbeckNoise.mu n
             = (1 - OrnsteinUhlenbeckNoise.theta n) ^ length draws
               * (x0 - OrnsteinUhlenbeckNoise.mu n))
          (OrnsteinUhlenbeckNoise.state n)
          (OrnsteinUhlenbeckNoise.state (sample_many n draws)).
Proof.
  intros Hs Hd; revert n Hs Hd; induction draws as [|d draws IH]; intros n Hs Hd.
  - simpl. induction (OrnsteinUhlenbeckNoise.state n); constructor; auto; ring.
  - inversion Hd as [|? ? Hd1 Hd2]; subst.
    set (n1 := snd (OrnsteinUhlenbeckNoise.sample n d)).
    assert (Hst : Forall2 (fun x0 x1 =>
                   x1 - OrnsteinUhlenbeckNoise.mu n
                   = (1 - OrnsteinUhlenbeckNoise.theta n)
                     * (x0 - OrnsteinUhlenbeckNoise.mu n))
                 (OrnsteinUhlenbeckNoise.state n)
                 (OrnsteinUhlenbeckNoise.state n1)).
    { unfold n1; rewrite ou_sample_state.
      apply Forall2_zip_with_left; [auto|].
      intros x r; rewrite Hs; ring. }
    assert (Hlen : length (OrnsteinUhlenbeckNoise.state n1)
                   = length (OrnsteinUhlenbeckNoise.state n)).
    { symmetry; eapply Forall2_length; exact Hst. }
    specialize (IH n1 Hs).
    assert (Hd' : Forall (fun d0 => length d0
                                    = length (OrnsteinUhlenbeckNoise.state n1)) draws).
    { rewrite Hlen; exact Hd2. }
    specialize (IH Hd').
    change (sample_many n (d :: draws)) with (sample_many n1 draws).
    eapply Forall2_chain; [|exact Hst|exact IH].
    intros x y z Hxy Hyz; simpl in *.
    change (OrnsteinUhlenbeckNoise.mu n1) with (OrnsteinUhlenbeckNoise.mu n) in Hyz.
    change (OrnsteinUhlenbeckNoise.theta n1)
      with (OrnsteinUhlenbeckNoise.theta n) in Hyz.
    rewrite Hyz, Hxy; ring.
Qed.

Lemma ou_mean_reversion_witness :
  let n := OrnsteinUhlenbeckNoise.mk 0 (1 / 2) 0 2 [4; 8] in
  Forall2 (fun x0 xk => xk - 0 = (1 - 1 / 2) ^ 2 * (x0 - 0))
          [4; 8]
          (OrnsteinUhlenbeckNoise.state (sample_many n [[1; 1]; [5; 7]])).
Proof.
  apply (ou_mean_reversion (OrnsteinUhlenbeckNoise.mk 0 (1 / 2) 0 2 [4; 8])
           [[1; 1]; [5; 7]]); [reflexivity | repeat constructor].
Defined.

(** X3.  [reset] undoes any run of samples: after it the process is what
    [reset] makes of the process before the run, and a process fresh from
    its constructor is back to what it was. *)
Theorem ou_reset_after_samples (n : OrnsteinUhlenbeckNoise.t) (draws : list Tensor) :
  OrnsteinUhlenbeckNoise.reset (sample_many n draws) = OrnsteinUhlenbeckNoise.reset n
  /\ forall size mu theta sigma,
       OrnsteinUhlenbeckNoise.reset
         (sample_many (OrnsteinUhlenbeckNoise.init size mu theta sigma) draws)
       = OrnsteinUhlenbeckNoise.init size mu theta sigma.
Proof.
  assert (H : forall m, OrnsteinUhlenbeckNoise.reset (sample_many m draws)
                        = OrnsteinUhlenbeckNoise.reset m).
  { intros m; destruct (sample_many_settings m draws) as (H1 & H2 & H3 & H4).
    unfold OrnsteinUhlenbeckNoise.reset; rewrite H1, H2, H3, H4; reflexivity. }
  split; [apply H | intros; rewrite H; reflexivity].
Qed.

(** ** Running reward statistics *)

Lemma tsum_app (xs ys : Tensor) : tsum (xs ++ ys) = tsum xs + tsum ys.
Proof.
  induction xs as [|x xs IH]; simpl; [lra | rewrite IH; lra].
Qed.

(** What [update] does to a normaliser that has seen [n >= 0] rewards. *)
Lemma reward_update_step (s : RewardNormalizer.t) (x : R) :
  (0 <= RewardNormalizer.count s)%Z ->
  RewardNormalizer.update x s
  = (Ok tt,
     let c := (RewardNormalizer.count s + 1)%Z in
     let m := RewardNormalizer.mean s + (x - RewardNormalizer.mean s) / IZR c in
     RewardNormalizer.mk m
       (RewardNormalizer.M2 s + (x - RewardNormalizer.mean s) * (x - m)) c).
Proof.
  intros Hc; unfold RewardNormalizer.update; run_monad; simpl.
  destruct (Z.eqb_spec (RewardNormalizer.count s + 1) 0) as [E|_]; [lia|].
  reflexivity.
Qed.

Lemma welford_step (s : RewardNormalizer.t) (seen : list R) (x : R) :
  welford s seen ->
  exists s', RewardNormalizer.update x s = (Ok tt, s') /\ welford s' (seen ++ [x]).
Proof.
  intros (Hc & Hm & Hv).
  rewrite reward_update_step by lia.
  eexists; split; [reflexivity|].
  unfold welford; cbv zeta; simpl RewardNormalizer.count;
    simpl RewardNormalizer.mean; simpl RewardNormalizer.M2.
  rewrite length_app, map_app, !tsum_app; simpl.
  set (n := RewardNormalizer.count s) in *.
  set (m := RewardNormalizer.mean s) in *.
  assert (Hn : IZR (n + 1) = IZR n + 1) by (rewrite plus_IZR; reflexivity).
  assert (Hpos : 0 <= IZR n) by (apply IZR_le; lia).
  repeat split.
  - lia.
  - rewrite Hn, <- Hm; field; lra.
  - rewrite Hv, Hn; field; lra.
Qed.

Lemma welford_feed (rewards seen : list R) (s : RewardNormalizer.t) :
  welford s seen ->
  exists s',
    RewardNormalizer.feed rewards s = (Ok tt, s') /\ welford s' (seen ++ rewards).
Proof.
  revert seen s; induction rewards as [|x rewards IH]; intros seen s Hw.
  - exists s; rewrite app_nil_r; split; [reflexivity | assumption].
  - destruct (welford_step s seen x Hw) as [s1 [E1 W1]].
    destruct (IH (seen ++ [x]) s1 W1) as [s2 [E2 W2]].
    exists s2; split.
    + unfold RewardNormalizer.feed in *; simpl; unfold bind; rewrite E1; exact E2.
    + rewrite <- app_assoc in W2; exact W2.
Qed.

Lemma welford_init : welford RewardNormalizer.init [].
Proof. unfold welford; simpl; repeat split; lra. Qed.

Lemma welford_mean (s : RewardNormalizer.t) (seen : list R) :
  welford s seen -> seen <> [] -> RewardNormalizer.mean s = tmean seen.
Proof.
  intros (Hc & Hm & _) Hne; unfold tmean.
  rewrite <- Hm, Hc, <- INR_IZR_INZ.
  assert (INR (length seen) <> 0).
  { apply not_0_INR; destruct seen; [congruence | discriminate]. }
  field; assumption.
Qed.

Lemma tsum_sq_dev (xs : Tensor) (m : R) :
  tsum (map (fun x => (x - m) * (x - m)) xs)
  = tsum (map (fun x => x * x) xs) - 2 * m * tsum xs + INR (length xs) * (m * m).
Proof.
  induction xs as [|x xs IH].
  - simpl; ring.
  - change (length (x :: xs)) with (S (length xs)); rewrite S_INR.
    simpl; rewrite IH; ring.
Qed.

Lemma welford_M2 (s : RewardNormalizer.t) (seen : list R) :
  welford s seen ->
  RewardNormalizer.M2 s
  = tsum (map (fun x => (x - RewardNormalizer.mean s)
                        * (x - RewardNormalizer.mean s)) seen).
Proof.
  intros (Hc & Hm & Hv).
  rewrite tsum_sq_dev, Hv, <- Hm, Hc, <- INR_IZR_INZ; ring.
Qed.

(** X4.  After [update] has been called on each of a non-empty list of
    rewards, starting from a new normaliser, [count] is their number and
    [mean] their arithmetic mean. *)
Theorem reward_normalizer_mean (rewards : list R) :
  rewards <> [] ->
  exists s,
    RewardNormalizer.feed rewards RewardNormalizer.init = (Ok tt, s)
    /\ RewardNormalizer.count s = Z.of_nat (length rewards)
    /\ RewardNormalizer.mean s = tmean rewards.
Proof.
  intros Hne.
  destruct (welford_feed rewards [] RewardNormalizer.init welford_init)
    as [s [E Hw]]; simpl in Hw.
  exists s; split; [exact E|]; split; [apply Hw | apply welford_mean; assumption].
Qed.

Lemma reward_normalizer_mean_witness :
  exists s,
    RewardNormalizer.feed [1; 2; 3] RewardNormalizer.init = (Ok tt, s)
    /\ RewardNormalizer.count s = 3%Z
    /\ RewardNormalizer.mean s = tmean [1; 2; 3].
Proof.
  exact (reward_normalizer_mean [1; 2; 3] ltac:(discriminate)).
Defined.

(** X5.  With at least two rewards seen, [M2] is the sum of their squared
    deviations from the mean, and [get_stats] returns the mean with the
    population standard deviation, the square root of [M2 / count]. *)
Theorem reward_normalizer_stats (rewards : list R) :
  (2 <= length rewards)%nat ->
  exists s,
    RewardNormalizer.feed rewards RewardNormalizer.init = (Ok tt, s)
    /\ RewardNormalizer.M2 s
       = tsum (map (fun x => (x - tmean rewards) * (x - tmean rewards)) rewards)
    /\ RewardNormalizer.get_stats s
       = (tmean rewards,
          Finite (sqrt (tsum (map (fun x => (x - tmean rewards)
                                            * (x - tmean rewards)) rewards)
                        / INR (length rewards)))).
Proof.
  intros Hlen.
  destruct (welford_feed rewards [] RewardNormalizer.init welford_init)
    as [s [E Hw]]; simpl in Hw.
  assert (Hne : rewards <> []) by (destruct rewards; [simpl in Hlen; lia | discriminate]).
  pose proof (welford_mean s rewards Hw Hne) as Hm.
  pose proof (welford_M2 s rewards Hw) as Hv; rewrite Hm in Hv.
  destruct Hw as (Hc & _ & _).
  exists s; split; [exact E|]; split; [exact Hv|].
  unfold RewardNormalizer.get_stats.
  destruct (Z.ltb_spec (RewardNormalizer.count s) 2) as [Hlt|_]; [lia|].
  rewrite Hm, Hv, Hc, <- INR_IZR_INZ; reflexivity.
Qed.

Lemma reward_normalizer_stats_witness :
  exists s,
    RewardNormalizer.feed [1; 2; 3] RewardNormalizer.init = (Ok tt, s)
    /\ RewardNormalizer.M2 s
       = tsum (map (fun x => (x - tmean [1; 2; 3]) * (x - tmean [1; 2; 3]))
                   [1; 2; 3])
    /\ RewardNormalizer.get_stats s
       = (tmean [1; 2; 3],
          Finite (sqrt (tsum (map (fun x => (x - tmean [1; 2; 3])
                                            * (x - tmean [1; 2; 3])) [1; 2; 3])
                        / INR 3))).
Proof.
  apply (reward_normalizer_stats [1; 2; 3]); simpl; lia.
Defined.

(** X6.  With fewer than two rewards seen the standard deviation is
    reported as infinite and [normalize] hands every reward back as it
    is. *)
Theorem reward_normalizer_too_few (rewards : list R) (r : R) :
  (length rewards < 2)%nat ->
  exists s,
    RewardNormalizer.feed rewards RewardNormalizer.init = (Ok tt, s)
    /\ snd (RewardNormalizer.get_stats s) = Infinity
    /\ RewardNormalizer.normalize s r = r.
Proof.
  intros Hlen.
  destruct (welford_feed rewards [] RewardNormalizer.init welford_init)
    as [s [E (Hc & _ & _)]]; simpl in Hc.
  exists s; split; [exact E|].
  unfold RewardNormalizer.normalize, RewardNormalizer.get_stats.
  destruct (Z.ltb_spec (RewardNormalizer.count s) 2) as [_|Hge]; [|lia].
  split; reflexivity.
Qed.

Lemma reward_normalizer_too_few_witness :
  exists s,
    RewardNormalizer.feed [7] RewardNormalizer.init = (Ok tt, s)
    /\ snd (RewardNormalizer.get_stats s) = Infinity
    /\ RewardNormalizer.normalize s 5 = 5.
Proof.
  apply (reward_normalizer_too_few [7] 5); simpl; lia.
Defined.

Lemma tsum_zero_devs (c : R) (n : nat) :
  tsum (map (fun x => (x - c) * (x - c)) (repeat c n)) = 0.
Proof.
  induction n as [|n IH]; simpl; [reflexivity | rewrite IH; ring].
Qed.

Lemma tmean_repeat (c : R) (n : nat) : (0 < n)%nat -> tmean (repeat c n) = c.
Proof.
  intros Hn; unfold tmean; rewrite repeat_length.
  assert (Hs : tsum (repeat c n) = INR n * c).
  { clear Hn; induction n as [|n IH]; [simpl; ring|].
    rewrite S_INR; simpl; rewrite IH; ring. }
  rewrite Hs; field; apply not_0_INR; lia.
Qed.

(** X7.  A normaliser fed the same reward [c] two or more times reports
    mean [c] and standard deviation [0], and [normalize] then hands every
    reward back as it is instead of dividing by zero. *)
Theorem reward_normalizer_constant (c r : R) (n : nat) :
  (2 <= n)%nat ->
  exists s,
    RewardNormalizer.feed (repeat c n) RewardNormalizer.init = (Ok tt, s)
    /\ RewardNormalizer.get_stats s = (c, Finite 0)
    /\ RewardNormalizer.normalize s r = r.
Proof.
  intros Hn.
  destruct (welford_feed (repeat c n) [] RewardNormalizer.init welford_init)
    as [s [E Hw]]; simpl in Hw.
  assert (Hne : repeat c n <> []) by (destruct n; [lia | discriminate]).
  pose proof (welford_mean s _ Hw Hne) as Hm; rewrite tmean_repeat in Hm by lia.
  pose proof (welford_M2 s _ Hw) as Hv; rewrite Hm, tsum_zero_devs in Hv.
  destruct Hw as (Hc & _ & _); rewrite repeat_length in Hc.
  assert (Hst : RewardNormalizer.get_stats s = (c, Finite 0)).
  { unfold RewardNormalizer.get_stats.
    destruct (Z.ltb_spec (RewardNormalizer.count s) 2) as [Hlt|_]; [lia|].
    rewrite Hm, Hv; unfold Rdiv; rewrite Rmult_0_l, sqrt_0; reflexivity. }
  exists s; split; [exact E|]; split; [exact Hst|].
  unfold RewardNormalizer.normalize; rewrite Hst.
  destruct (Req_dec_T 0 0) as [_|Hn0]; [reflexivity | contradiction].
Qed.

Lemma reward_normalizer_constant_witness :
  exists s,
    RewardNormalizer.feed (repeat 4 3) RewardNormalizer.init = (Ok tt, s)
    /\ RewardNormalizer.get_stats s = (4, Finite 0)
    /\ RewardNormalizer.normalize s 9 = 9.
Proof.
  apply (reward_normalizer_constant 4 9 3); lia.
Defined.

(** ** Normalising a batch of rewards *)

Lemma tsum_map_affine (a b : R) (xs : Tensor) :
  tsum (map (fun x => (x - a) / b) xs) = (tsum xs - INR (length xs) * a) / b.
Proof.
  induction xs as [|x xs IH].
  - simpl; unfold Rdiv; ring.
  - change (length (x :: xs)) with (S (length xs)); rewrite S_INR.
    simpl; rewrite IH; unfold Rdiv; ring.
Qed.

Lemma tensor_std_nonneg (t : Tensor) : 0 <= tensor_std t.
Proof. apply sqrt_pos. Qed.

(** X8.  For a batch of two or more rewards [_normalize_batch_rewards]
    divides by a positive number and returns as many values as it was
    given, adding up to zero. *)
Theorem normalize_batch_rewards_centred (rewards : Tensor) :
  (2 <= length rewards)%nat ->
  0 < tensor_std rewards + 1 / 100000
  /\ length (_normalize_batch_rewards rewards) = length rewards
  /\ tsum (_normalize_batch_rewards rewards) = 0.
Proof.
  intros Hlen; pose proof (tensor_std_nonneg rewards) as Hs.
  split; [lra|]; split; [apply length_map|].
  unfold _normalize_batch_rewards; cbv zeta.
  rewrite tsum_map_affine; unfold tmean.
  assert (INR (length rewards) <> 0) by (apply not_0_INR; lia).
  field; repeat split; try assumption; lra.
Qed.

Lemma normalize_batch_rewards_centred_witness :
  0 < tensor_std [1; 2; 6] + 1 / 100000
  /\ length (_normalize_batch_rewards [1; 2; 6]) = 3%nat
  /\ tsum (_normalize_batch_rewards [1; 2; 6]) = 0.
Proof.
  apply (normalize_batch_rewards_centred [1; 2; 6]); simpl; lia.
Defined.

(** X9.  A batch of two or more equal rewards is normalised to zeros: the
    standard deviation is zero and the [1e-5] in the denominator keeps the
    division defined. *)
Theorem normalize_batch_rewards_constant (c : R) (n : nat) :
  (2 <= n)%nat ->
  tensor_std (repeat c n) = 0
  /\ _normalize_batch_rewards (repeat c n) = repeat 0 n.
Proof.
  intros Hn.
  assert (Hm : tmean (repeat c n) = c) by (apply tmean_repeat; lia).
  assert (Hs : tensor_std (repeat c n) = 0).
  { unfold tensor_std; rewrite Hm, tsum_zero_devs.
    unfold Rdiv; rewrite Rmult_0_l; apply sqrt_0. }
  split; [exact Hs|].
  unfold _normalize_batch_rewards; cbv zeta; rewrite Hm, Hs.
  clear; induction n as [|n IH]; simpl; [reflexivity|].
  rewrite IH; f_equal; field.
Qed.

Lemma normalize_batch_rewards_constant_witness :
  tensor_std (repeat 3 4) = 0
  /\ _normalize_batch_rewards (repeat 3 4) = repeat 0 4.
Proof.
  apply (normalize_batch_rewards_constant 3 4); lia.
Defined.

Lemma tsum_shift (c : R) (xs : Tensor) :
  tsum (map (fun x => x + c) xs) = tsum xs + INR (length xs) * c.
Proof.
  induction xs as [|x xs IH].
  - simpl; ring.
  - change (length (x :: xs)) with (S (length xs)); rewrite S_INR.
    simpl; rewrite IH; ring.
Qed.

Lemma tmean_shift (c : R) (xs : Tensor) :
  xs <> [] -> tmean (map (fun x => x + c) xs) = tmean xs + c.
Proof.
  intros Hne; unfold tmean; rewrite tsum_shift, length_map.
  assert (INR (length xs) <> 0).
  { apply not_0_INR; destruct xs; [congruence | discriminate]. }
  field; assumption.
Qed.

Lemma tensor_std_shift (c : R) (xs : Tensor) :
  xs <> [] -> tensor_std (map (fun x => x + c) xs) = tensor_std xs.
Proof.
  intros Hne; unfold tensor_std.
  rewrite tmean_shift, length_map, map_map by assumption.
  f_equal; f_equal; f_equal.
  apply map_ext; intros x; ring.
Qed.

(** X10.  Adding the same constant to every reward of a batch of two or
    more does not change the normalised batch. *)
Theorem normalize_batch_rewards_shift (c : R) (rewards : Tensor) :
  (2 <= length rewards)%nat ->
  _normalize_batch_rewards (map (fun r => r + c) rewards)
  = _normalize_batch_rewards rewards.
Proof.
  intros Hlen.
  assert (Hne : rewards <> []) by (destruct rewards; [simpl in Hlen; lia | discriminate]).
  unfold _normalize_batch_rewards; cbv zeta.
  rewrite tmean_shift, tensor_std_shift, map_map by assumption.
  apply map_ext; intros r; f_equal; ring.
Qed.

Lemma normalize_batch_rewards_shift_witness :
  _normalize_batch_rewards (map (fun r => r + 10) [1; 2; 6])
  = _normalize_batch_rewards [1; 2; 6].
Proof.
  apply (normalize_batch_rewards_shift 10 [1; 2; 6]); simpl; lia.
Defined.

(** ** More on the soft update *)

Lemma zip_zip_compose {A B : Type} (f g : A -> B -> A) (xs : list A) (ys : list B) :
  zip_with f (zip_with g xs ys) ys = zip_with (fun x y => f (g x y) y) xs ys.
Proof.
  revert ys; induction xs as [|x xs IH]; intros [|y ys]; simpl; auto.
  rewrite IH; reflexivity.
Qed.

Lemma zip_with_ext_in {A B C : Type} (f g : A -> B -> C) (xs : list A)
  (ys : list B) :
  Forall2 (fun x y => f x y = g x y) xs ys -> zip_with f xs ys = zip_with g xs ys.
Proof.
  induction 1 as [|x y xs ys Hxy H IH]; simpl; [reflexivity|].
  rewrite Hxy, IH; reflexivity.
Qed.

Lemma Forall2_always {A B : Type} (P Q : A -> B -> Prop) (xs : list A) (ys : list B) :
  (forall x y, Q x y -> P x y) -> Forall2 Q xs ys -> Forall2 P xs ys.
Proof. intros H; induction 1; constructor; auto. Qed.

Lemma same_shapes_blend (f : R -> R -> R) (target main : Params) :
  same_shapes target main ->
  same_shapes (zip_with (zip_with f) target main) main.
Proof.
  induction 1 as [|t m target main Hl Hs IH]; simpl; constructor; auto.
  rewrite zip_with_length; assumption.
Qed.

(** X11.  Soft updates repeated [k] times against the same online network
    close the gap geometrically: every target entry ends at the online
    entry plus [(1 - tau)^k] times the gap it started with. *)
Theorem soft_update_converges (k : nat) (target main : Params) (tau : R) :
  same_shapes target main ->
  soft_update_many k target main tau
  = zip_with (zip_with (fun t m => m + (1 - tau) ^ k * (t - m))) target main.
Proof.
  revert target; induction k as [|k IH]; intros target Hs.
  - simpl; symmetry.
    induction Hs as [|t m target main Hl Hs IH]; simpl; [reflexivity|].
    rewrite IH, zip_with_const_left; [reflexivity | assumption | intros; ring].
  - simpl soft_update_many.
    rewrite soft_update_same_shapes by assumption; simpl snd.
    rewrite IH by (apply same_shapes_blend; assumption).
    rewrite zip_zip_compose.
    apply zip_with_ext_in.
    eapply Forall2_always; [|exact Hs].
    intros t m _; cbv beta.
    rewrite zip_zip_compose.
    apply zip_with_ext; intros x y; unfold polyak; simpl; ring.
Qed.

Lemma soft_update_converges_witness :
  soft_update_many 3 [[1; 2]; [3]] [[5; 6]; [7]] (5 / 100)
  = zip_with (zip_with (fun t m => m + (1 - 5 / 100) ^ 3 * (t - m)))
             [[1; 2]; [3]] [[5; 6]; [7]].
Proof.
  apply (soft_update_converges 3 [[1; 2]; [3]] [[5; 6]; [7]] (5 / 100)).
  repeat constructor.
Defined.

Lemma polyak_between (tau t m : R) :
  0 <= tau <= 1 -> Rmin t m <= polyak tau t m <= Rmax t m.
Proof.
  intros [H0 H1]; unfold polyak, Rmin, Rmax.
  destruct (Rle_dec t m); split; nra.
Qed.

Lemma between_blend (tau : R) (t m : Tensor) :
  0 <= tau <= 1 -> length t = length m ->
  between t m (zip_with (polyak tau) t m).
Proof.
  intros Htau; unfold between; revert m; induction t as [|x t IH];
    intros [|y m] Hl; simpl in *; try discriminate; constructor.
  - simpl; apply polyak_between; assumption.
  - apply IH; lia.
Qed.

(** X12.  With [0 <= tau <= 1] a soft update moves no entry past the
    online network: every new target entry lies between the old target
    entry and the online entry. *)
Theorem soft_update_stays_between (target main : Params) (tau : R) :
  0 <= tau <= 1 ->
  same_shapes target main ->
  exists target',
    soft_update target main tau = (Ok tt, target')
    /\ Forall2 (fun pair t' => between (fst pair) (snd pair) t')
               (combine target main) target'.
Proof.
  intros Htau Hs; eexists; split; [apply soft_update_same_shapes; assumption|].
  induction Hs as [|t m target main Hl Hs IH]; simpl; constructor; [|exact IH].
  simpl; apply between_blend; assumption.
Qed.

Lemma soft_update_stays_between_witness :
  exists target',
    soft_update [[1; 8]; [3]] [[5; 6]; [7]] (5 / 100) = (Ok tt, target')
    /\ Forall2 (fun pair t' => between (fst pair) (snd pair) t')
               (combine [[1; 8]; [3]] [[5; 6]; [7]]) target'.
Proof.
  apply (soft_update_stays_between [[1; 8]; [3]] [[5; 6]; [7]] (5 / 100));
    [lra | repeat constructor].
Defined.

Lemma inplace2_length (f : R -> R -> R) (a b v : Tensor) :
  inplace2 f a b = Ok v -> length v = length a.
Proof.
  unfold inplace2.
  destruct (Nat.eqb_spec (length a) (length b)) as [E|_].
  - intros H; injection H as <-; apply zip_with_length; assumption.
  - destruct b as [|y [|y' b]]; try discriminate.
    intros H; injection H as <-; apply length_map.
Qed.

(** X13.  Whatever the two networks look like and whether it raises or
    not, [soft_update] leaves the target network with the tensors it had,
    each of its old size: it writes in place and never reshapes. *)
Theorem soft_update_keeps_shapes (target main : Params) (tau : R) :
  same_shapes (snd (soft_update target main tau)) target.
Proof.
  assert (Hrefl : forall p : Params, same_shapes p p).
  { intros p; induction p; constructor; auto. }
  revert main; induction target as [|t target IH]; intros main; simpl;
    [constructor|].
  destruct main as [|m main]; [apply Hrefl|].
  destruct (broadcast2 Rplus (tscale tau m) (tscale (1 - tau) t)) as [v|e];
    [|apply Hrefl].
  destruct (inplace2 (fun _ y => y) t v) as [t'|e] eqn:Ecopy; [|apply Hrefl].
  specialize (IH main).
  destruct (soft_update target main tau) as [r rest]; simpl in *.
  constructor; [eapply inplace2_length; exact Ecopy | exact IH].
Qed.

Lemma soft_update_prefix (target main extra_t extra_m : Params) (tau : R) :
  same_shapes target main ->
  (extra_t = [] \/ extra_m = []) ->
  soft_update (target ++ extra_t) (main ++ extra_m) tau
  = (Ok tt, zip_with (zip_with (polyak tau)) target main ++ extra_t).
Proof.
  intros Hs He; induction Hs as [|t m target main Hl Hs IH]; simpl.
  - destruct He as [-> | ->]; [reflexivity | destruct extra_t; reflexivity].
  - rewrite polyak_tensor by assumption.
    rewrite copy_same_size by (rewrite zip_with_length; auto).
    rewrite IH; reflexivity.
Qed.

(** X14.  [soft_update] pairs the parameters of the two networks off and
    stops at the shorter list without complaint: target tensors beyond the
    online network's are left as they are, and online tensors beyond the
    target's are ignored. *)
Theorem soft_update_unpaired (target main extra : Params) (tau : R) :
  same_shapes target main ->
  soft_update (target ++ extra) main tau
  = (Ok tt, zip_with (zip_with (polyak tau)) target main ++ extra)
  /\ soft_update target (main ++ extra) tau
     = (Ok tt, zip_with (zip_with (polyak tau)) target main).
Proof.
  intros Hs; split.
  - rewrite <- (app_nil_r main) at 1.
    apply soft_update_prefix; [assumption | now right].
  - rewrite <- (app_nil_r target) at 1.
    rewrite soft_update_prefix by (auto; now left).
    rewrite app_nil_r; reflexivity.
Qed.

Lemma soft_update_unpaired_witness :
  soft_update ([[1; 2]] ++ [[9; 9; 9]]) [[5; 6]] (5 / 100)
  = (Ok tt, zip_with (zip_with (polyak (5 / 100))) [[1; 2]] [[5; 6]] ++ [[9; 9; 9]])
  /\ soft_update [[1; 2]] ([[5; 6]] ++ [[9; 9; 9]]) (5 / 100)
     = (Ok tt, zip_with (zip_with (polyak (5 / 100))) [[1; 2]] [[5; 6]]).
Proof.
  apply (soft_update_unpaired [[1; 2]] [[5; 6]] [[9; 9; 9]] (5 / 100)).
  repeat constructor.
Defined.




(** ** More on the epsilon schedule *)

Lemma exp_nonpos_le_1 (x : R) : x <= 0 -> 0 < exp x <= 1.
Proof.
  intros Hx; split; [apply exp_pos|].
  destruct Hx as [Hlt | ->]; [|rewrite exp_0; lra].
  left; rewrite <- exp_0; apply exp_increasing; assumption.
Qed.

Section EpsilonRange.

Variable W : World.

Lemma decay_exponent_nonpos (a : Agent W) :
  0 <= epsilon_decay_rate a -> (warmup_steps a <= episode_count a)%Z ->
  - epsilon_decay_rate a * IZR (episode_count a - warmup_steps a) <= 0.
Proof.
  intros Hr Hc.
  assert (0 <= IZR (episode_count a - warmup_steps a)) by (apply IZR_le; lia).
  nra.
Qed.

Lemma update_epsilon_in_range (a : Agent W) :
  epsilon_in_range a ->
  exists a',
    update_epsilon W a = (Ok tt, a')
    /\ epsilon_in_range a'
    /\ epsilon_min a' = epsilon_min a /\ epsilon_max a' = epsilon_max a
    /\ episode_count a' = (episode_count a + 1)%Z.
Proof.
  intros ((Hlo & Hhi) & Hr & Hc & He1 & He2).
  destruct (Z.lt_ge_cases (episode_count a) (warmup_steps a)) as [Hw|Hw].
  - rewrite update_epsilon_warm by lia.
    eexists; split; [reflexivity|].
    unfold epsilon_in_range; simpl; unfold warmup_epsilon.
    assert (Hk : 0 <= IZR (episode_count a)) by (apply IZR_le; lia).
    assert (HW : IZR (episode_count a) < IZR (warmup_steps a))
      by (apply IZR_lt; lia).
    set (k := IZR (episode_count a)) in *; set (w := IZR (warmup_steps a)) in *.
    assert (Hq : 0 <= k / w < 1).
    { split; [apply Rle_mult_inv_pos; lra|].
      apply Rmult_lt_reg_r with w; [lra|].
      unfold Rdiv; rewrite Rmult_assoc, Rinv_l by lra; lra. }
    replace ((epsilon_max a - 5 / 10) / w * k)
      with ((epsilon_max a - 5 / 10) * (k / w)) by (field; lra).
    repeat split; try assumption; try lia; nra.
  - rewrite update_epsilon_cold by lia.
    eexists; split; [reflexivity|].
    unfold epsilon_in_range; simpl.
    destruct (exp_nonpos_le_1 _ (decay_exponent_nonpos a Hr Hw)) as [Hp H1].
    set (e := exp _) in *.
    repeat split; try assumption; try lia; try apply Rmax_l.
    apply Rmax_lub; [lra|].
    destruct (Rle_lt_dec 0 (epsilon a)); nra.
Qed.

(** X16.  With [epsilon_min <= 0.5 <= epsilon_max], a decay rate and a
    counter that are not negative and [epsilon] inside
    [[epsilon_min, epsilon_max]], any number of calls of [update_epsilon]
    returns normally, keeps [epsilon] inside that interval and adds one to
    the counter per call. *)
Theorem update_epsilon_stays_in_range (n : nat) (a : Agent W) :
  epsilon_in_range a ->
  exists a',
    repeat_m n (update_epsilon W) a = (Ok tt, a')
    /\ epsilon_min a <= epsilon a' <= epsilon_max a
    /\ episode_count a' = (episode_count a + Z.of_nat n)%Z.
Proof.
  revert a; induction n as [|n IH]; intros a Ha.
  - exists a; split; [reflexivity|]; split; [apply Ha | lia].
  - destruct (update_epsilon_in_range a Ha) as [a1 (E1 & R1 & Hmin & Hmax & Hc)].
    destruct (IH a1 R1) as [a2 (E2 & R2 & Hc2)].
    exists a2; split; [simpl; unfold bind; rewrite E1; exact E2|].
    rewrite <- Hmin, <- Hmax; split; [exact R2 | lia].
Qed.

(** X17.  [update_epsilon] raises exactly when [warmup_steps] is zero and
    the counter negative, by dividing by [warmup_steps]; the agent is then
    left as it was, counter included. *)
Theorem update_epsilon_zero_division (a : Agent W) :
  (warmup_steps a = 0%Z /\ (episode_count a < 0)%Z ->
   update_epsilon W a = (Raise ZeroDivisionError, a))
  /\ (~ (warmup_steps a = 0%Z /\ (episode_count a < 0)%Z) ->
      exists a', update_epsilon W a = (Ok tt, a')).
Proof.
  split.
  - intros [HW Hc]; unfold update_epsilon; run_monad.
    rewrite HW; apply Z.ltb_lt in Hc; rewrite Hc; reflexivity.
  - intros Hn.
    destruct (Z.lt_ge_cases (episode_count a) (warmup_steps a)) as [Hw|Hw].
    + rewrite update_epsilon_warm; [eexists; reflexivity | lia | lia].
    + rewrite update_epsilon_cold by lia; eexists; reflexivity.
Qed.

Lemma update_epsilon_cold_step (a : Agent W) :
  (warmup_steps a <= episode_count a)%Z ->
  0 <= epsilon_decay_rate a -> 0 <= epsilon_min a <= epsilon a ->
  exists a',
    update_epsilon W a = (Ok tt, a')
    /\ epsilon_min a <= epsilon a' <= epsilon a
    /\ (warmup_steps a' <= episode_count a')%Z
    /\ epsilon_decay_rate a' = epsilon_decay_rate a
    /\ epsilon_min a' = epsilon_min a.
Proof.
  intros Hw Hr [H0 He].
  rewrite update_epsilon_cold by lia.
  eexists; split; [reflexivity|]; simpl.
  destruct (exp_nonpos_le_1 _ (decay_exponent_nonpos a Hr Hw)) as [Hp H1].
  set (e := exp _) in *.
  repeat split; try lia; try apply Rmax_l.
  apply Rmax_lub; nra.
Qed.

(** X18.  After the warm-up, with a decay rate and an [epsilon_min] that
    are not negative, [epsilon] never goes up again: after any number of
    further calls of [update_epsilon] it is at most what it was and at
    least [epsilon_min]. *)
Theorem update_epsilon_decays (n : nat) (a : Agent W) :
  (warmup_steps a <= episode_count a)%Z ->
  0 <= epsilon_decay_rate a -> 0 <= epsilon_min a <= epsilon a ->
  exists a',
    repeat_m n (update_epsilon W) a = (Ok tt, a')
    /\ epsilon_min a <= epsilon a' <= epsilon a.
Proof.
  revert a; induction n as [|n IH]; intros a Hw Hr He.
  - exists a; split; [reflexivity | lra].
  - destruct (update_epsilon_cold_step a Hw Hr He)
      as [a1 (E1 & R1 & Hw1 & Hr1 & Hm1)].
    destruct (IH a1 Hw1) as [a2 (E2 & R2)]; [rewrite Hr1; exact Hr | rewrite Hm1; lra|].
    exists a2; split; [simpl; unfold bind; rewrite E1; exact E2|].
    rewrite Hm1 in R2; lra.
Qed.

End EpsilonRange.

Lemma update_epsilon_stays_in_range_witness :
  exists a',
    repeat_m 3 (update_epsilon Toy.world) (Toy.agent 10 4) = (Ok tt, a')
    /\ epsilon_min (Toy.agent 10 4) <= epsilon a' <= epsilon_max (Toy.agent 10 4)
    /\ episode_count a' = (episode_count (Toy.agent 10 4) + Z.of_nat 3)%Z.
Proof.
  apply (update_epsilon_stays_in_range Toy.world 3 (Toy.agent 10 4)).
  unfold epsilon_in_range; simpl; repeat split; try lra; lia.
Defined.

Lemma update_epsilon_zero_division_witness :
  update_epsilon Toy.world
    (set_episode_count (-1) (__post_init__ Toy.world
       (mkConfig (Toy.portfolio 10) 4 50 1 20 (9 / 10) (5 / 100) 1 1 (1 / 100)
                 (1 / 100000) 0 0)))
  = (Raise ZeroDivisionError,
     set_episode_count (-1) (__post_init__ Toy.world
       (mkConfig (Toy.portfolio 10) 4 50 1 20 (9 / 10) (5 / 100) 1 1 (1 / 100)
                 (1 / 100000) 0 0))).
Proof.
  apply (proj1 (update_epsilon_zero_division Toy.world _)).
  split; [reflexivity | simpl; lia].
Defined.

Lemma update_epsilon_decays_witness :
  exists a',
    repeat_m 2 (update_epsilon Toy.world)
             (set_episode_count 6000 (Toy.agent 10 4)) = (Ok tt, a')
    /\ epsilon_min (Toy.agent 10 4) <= epsilon a' <= epsilon (Toy.agent 10 4).
Proof.
  apply (update_epsilon_decays Toy.world 2 (set_episode_count 6000 (Toy.agent 10 4)));
    simpl; try lia; lra.
Defined.

(** ** More on action selection *)

Lemma cat_cash_drop_first (v : Tensor) :
  v <> [] -> tsum v = 1 -> cat_cash (drop_first v) = v.
Proof.
  destruct v as [|h t]; [congruence|]; intros _ Hs; simpl in Hs.
  unfold cat_cash, drop_first; simpl.
  replace (1 - tsum t) with h by lra; reflexivity.
Qed.

Section SelectActionMore.

Variable W : World.

(** The two sources of the vector [action]: the softmax of the logits and
    the normalised uniform draw. *)
Lemma select_action_weights_cases (state : Obs W * Tensor) (exploration : bool)
  (action_type : string) (a a' : Agent W) (v : Tensor) :
  select_action_weights W state exploration action_type a = (Ok v, a') ->
  v = softmax (actor_forward W (actor a) state)
  \/ v = (let uniform_vec :=
            map (np_random_uniform W (rng a)) (seq 0 (m_assets (portfolio a))) in
          map (fun u => u / tsum uniform_vec) uniform_vec).
Proof.
  destruct exploration.
  2:{ rewrite select_action_weights_deterministic.
      intros H; injection H as <- _; now left. }
  destruct (String.eqb action_type "hybrid") eqn:Ehy.
  - apply String.eqb_eq in Ehy; subst action_type.
    destruct (Z.lt_ge_cases (episode_count a) (warmup_steps a)) as [Hlt|Hge].
    + rewrite select_action_weights_hybrid_warm by assumption.
      intros H; injection H as <- _; now right.
    + intros H.
      pose proof (select_action_noise_path W state "hybrid" a
                    (or_intror (conj eq_refl Hge))) as Hn.
      unfold select_action, bind in Hn; rewrite H in Hn; discriminate.
  - destruct (String.eqb action_type "ou") eqn:Eou.
    + apply String.eqb_eq in Eou; subst action_type.
      intros H.
      pose proof (select_action_noise_path W state "ou" a (or_introl eq_refl)) as Hn.
      unfold select_action, bind in Hn; rewrite H in Hn; discriminate.
    + unfold select_action_weights; run_monad.
      rewrite Ehy, Eou; cbv beta iota; unfold andb.
      destruct (String.eqb action_type "greedy").
      * unfold draw_rand; cbv beta iota.
        destruct (Rlt_dec (np_random_rand W (rng a)) (epsilon a));
          [discriminate|].
        intros H; injection H as <- _; now left.
      * intros H; injection H as <- _; now left.
Qed.

(** X19.  With exploration on, a mode that is none of ["hybrid"], ["ou"]
    and ["greedy"] is not rejected: [select_action] answers as without
    exploration, with the softmax of the logits less its first entry, and
    leaves the agent alone. *)
Theorem select_action_unknown_mode (state : Obs W * Tensor) (action_type : string)
  (a : Agent W) :
  action_type <> "hybrid"%string -> action_type <> "ou"%string ->
  action_type <> "greedy"%string ->
  select_action W state true action_type a
  = (Ok (drop_first (softmax (actor_forward W (actor a) state))), a).
Proof.
  intros Hh Ho Hg.
  apply String.eqb_neq in Hh, Ho, Hg.
  unfold select_action, select_action_weights; run_monad.
  rewrite Hh; cbv beta iota; unfold andb.
  rewrite Ho, Hg; reflexivity.
Qed.

(** X20.  Putting the cash weight back in front of an action that
    [select_action] returned gives exactly the weight vector the action
    was cut from: the two representations of an allocation agree.  This
    needs uniform draws that are not all zero and an actor that emits at
    least one logit. *)
Theorem select_action_cash_round_trip (state : Obs W * Tensor)
  (exploration : bool) (action_type : string) (a a' : Agent W) (x : Tensor) :
  (forall k, 0 < tsum (map (np_random_uniform W k)
                           (seq 0 (m_assets (portfolio a))))) ->
  (forall theta s, actor_forward W theta s <> []) ->
  select_action W state exploration action_type a = (Ok x, a') ->
  select_action_weights W state exploration action_type a = (Ok (cat_cash x), a').
Proof.
  intros Hs Hact; unfold select_action, bind.
  destruct (select_action_weights W state exploration action_type a)
    as [[v|e] a1] eqn:E; [|discriminate].
  unfold ret; intros H; injection H as <- <-.
  f_equal; f_equal; symmetry.
  destruct (select_action_weights_cases _ _ _ _ _ _ E) as [-> | ->].
  - apply cat_cash_drop_first.
    + pose proof (Hact (actor a) state) as Hne.
      unfold softmax; cbv zeta.
      destruct (actor_forward W (actor a) state); [congruence | discriminate].
    + apply softmax_sum, Hact.
  - cbv zeta; specialize (Hs (rng a)).
    set (u := map (np_random_uniform W (rng a)) (seq 0 (m_assets (portfolio a)))) in *.
    apply cat_cash_drop_first.
    + destruct u; [simpl in Hs; lra | discriminate].
    + rewrite tsum_div; field; lra.
Qed.

End SelectActionMore.

Lemma select_action_unknown_mode_witness :
  select_action Toy.world (tt, [0; 0]) true "random" (Toy.agent 10 4)
  = (Ok (drop_first (softmax [0; 0; 0])), Toy.agent 10 4).
Proof.
  apply (select_action_unknown_mode Toy.world (tt, [0; 0]) "random" (Toy.agent 10 4));
    discriminate.
Defined.

Lemma select_action_cash_round_trip_witness :
  select_action_weights Toy.world (tt, [0; 0]) true "hybrid" (Toy.agent 10 4)
  = (Ok (cat_cash (drop_first (map (fun u => u / tsum [1 / 2; 1 / 2; 1 / 2])
                                   [1 / 2; 1 / 2; 1 / 2]))),
     set_episode_count 1 (set_rng 1 (Toy.agent 10 4))).
Proof.
  apply (select_action_cash_round_trip Toy.world (tt, [0; 0]) true "hybrid"
           (Toy.agent 10 4)).
  - intros k; simpl; lra.
  - intros theta s; simpl; discriminate.
  - reflexivity.
Defined.

(** ** More on the critic step and the critic's warm-up *)

Lemma tmean_nonneg (t : Tensor) : Forall (fun x => 0 <= x) t -> 0 <= tmean t.
Proof.
  intros H; unfold tmean, Rdiv.
  apply Rmult_le_pos; [apply tsum_nonneg; assumption|].
  destruct t as [|x t]; [simpl; rewrite Rinv_0; lra|].
  left; apply Rinv_0_lt_compat, lt_0_INR; simpl; lia.
Qed.

Lemma tmean_zeros (t : Tensor) : Forall (fun x => x = 0) t -> tmean t = 0.
Proof.
  intros H; unfold tmean.
  assert (Hs : tsum t = 0) by (induction H; simpl; lra).
  rewrite Hs; unfold Rdiv; ring.
Qed.


Section CriticMore.

Variable W : World.

(** The two ways [train_critic] can end. *)
Lemma train_critic_outcome (experience : ExperienceBatch (ObsB W))
  (is_weights : Tensor) (a : Agent W) :
  match critic_td_error W (critic a) (batch_size a) experience with
  | Ok td_error =>
      exists a',
        train_critic W experience is_weights a
        = (Ok (td_error, critic_loss_of td_error is_weights), a')
        /\ same_outside_critic a a' /\ rng a' = rng a
        /\ batch_size a' = batch_size a
  | Raise e =>
      train_critic W experience is_weights a = (Raise e, set_critic_grad None a)
  end.
Proof.
  unfold train_critic; run_monad; simpl critic; simpl batch_size.
  destruct (critic_td_error W (critic a) (batch_size a) experience) as [td|e];
    [|reflexivity].
  simpl.
  destruct (Adam_step W (critic_optimizer a) (critic a) _) as [s p].
  eexists; split; [reflexivity|].
  unfold same_outside_critic; simpl; repeat split.
Qed.

(** X21.  When the critic returns one value per sample, the loss that
    [train_critic] reports is not negative for importance weights that are
    not negative, and it is zero when all the weights are zero. *)
Theorem train_critic_loss_sign (experience : ExperienceBatch (ObsB W))
  (is_weights : Tensor) (a : Agent W) :
  length (critic_forward W (critic a)
            (fst (b_state experience), map cat_cash (snd (b_state experience)))
            (map cat_cash (b_action experience)))
  = length (b_reward experience) ->
  exists td_error loss a',
    train_critic W experience is_weights a = (Ok (td_error, loss), a')
    /\ (Forall (fun w => 0 <= w) is_weights -> 0 <= loss)
    /\ (Forall (fun w => w = 0) is_weights -> loss = 0).
Proof.
  intros Hlen.
  pose proof (train_critic_outcome experience is_weights a) as H.
  rewrite (critic_td_error_formula W (critic a) (batch_size a) experience Hlen) in H.
  destruct H as [a' [E _]].
  eexists; eexists; exists a'; split; [exact E|].
  unfold critic_loss_of; cbv zeta; rewrite tmean_scale.
  assert (Hsq : 0 <= tmean (map (fun e => e * e)
                     (zip_with (fun r qi => r / IZR (batch_size a) - qi)
                        (b_reward experience)
                        (critic_forward W (critic a)
                           (fst (b_state experience),
                            map cat_cash (snd (b_state experience)))
                           (map cat_cash (b_action experience)))))).
  { apply tmean_nonneg, Forall_forall; intros y Hy.
    apply in_map_iff in Hy as [x [<- _]]; nra. }
  split; intros Hw.
  - apply Rmult_le_pos; [exact Hsq | apply tmean_nonneg; exact Hw].
  - rewrite (tmean_zeros is_weights Hw); ring.
Qed.


Lemma warm_up_rounds_frame (k : nat) (a a' : Agent W) (r : Result unit) :
  warm_up_rounds W k a = (r, a') ->
  same_outside_critic a a' /\ batch_size a' = batch_size a.
Proof.
  assert (Hrefl : forall b : Agent W, same_outside_critic b b)
    by (intros b; unfold same_outside_critic; repeat split).
  revert a; induction k as [|k IH]; intros a; simpl.
  - unfold ret; intros H; injection H as _ <-; split; [apply Hrefl | reflexivity].
  - run_monad.
    destruct (Z.of_nat (replay_len (replay_memory a)) <? batch_size a)%Z.
    + intros H; injection H as _ <-; split; [apply Hrefl | reflexivity].
    + destruct (replay_sample W (replay_memory a) (rng a) (batch_size a))
        as [[experiences indices] is_weights].
      cbv beta iota.
      pose proof (train_critic_outcome experiences is_weights
                    (set_rng (S (rng a)) a)) as Hc.
      destruct (critic_td_error W _ _ experiences) as [td|e].
      * destruct Hc as [a1 (E1 & F1 & _ & Hb1)]; rewrite E1.
        intros H; destruct (IH a1 H) as [F2 Hb2].
        split; [|rewrite Hb2, Hb1; reflexivity].
        unfold same_outside_critic in *; simpl in F1.
        destruct F1 as (A1 & A2 & A3 & A4 & A5 & A6 & A7 & A8 & A9).
        destruct F2 as (B1 & B2 & B3 & B4 & B5 & B6 & B7 & B8 & B9).
        repeat split; congruence.
      * rewrite Hc; intros H; injection H as _ <-.
        split; [|reflexivity]; unfold same_outside_critic; simpl; repeat split.
Qed.

(** X23.  When the replay buffer holds fewer experiences than a batch, or
    when no iteration is asked for, [warm_up_critic] returns without
    raising and leaves the agent exactly as it was. *)
Theorem warm_up_critic_skips (n_iterations : Z) (a : Agent W) :
  (Z.of_nat (replay_len (replay_memory a)) < batch_size a)%Z
  \/ (n_iterations <= 0)%Z ->
  warm_up_critic W n_iterations a = (Ok tt, a).
Proof.
  unfold warm_up_critic; intros [Hlt | Hn].
  - destruct (Z.to_nat n_iterations) as [|k]; [reflexivity|].
    simpl; run_monad.
    apply Z.ltb_lt in Hlt; rewrite Hlt; reflexivity.
  - replace (Z.to_nat n_iterations) with 0%nat by lia; reflexivity.
Qed.

(** X24.  However it ends, [warm_up_critic] touches nothing but the critic
    and the random generator: the actor and its optimiser, the
    portfolio-vector memory, the replay buffer, the noise process,
    [epsilon], the counter and the target networks are what they were. *)
Theorem warm_up_critic_frame (n_iterations : Z) (a a' : Agent W) (r : Result unit) :
  warm_up_critic W n_iterations a = (r, a') -> same_outside_critic a a'.
Proof.
  unfold warm_up_critic; intros H.
  exact (proj1 (warm_up_rounds_frame _ a a' r H)).
Qed.

End CriticMore.

Lemma train_critic_loss_sign_witness :
  exists td_error loss a',
    train_critic Toy.world Toy.batch2 Toy.weights2 (Toy.agent 10 2)
    = (Ok (td_error, loss), a')
    /\ (Forall (fun w => 0 <= w) Toy.weights2 -> 0 <= loss)
    /\ (Forall (fun w => w = 0) Toy.weights2 -> loss = 0).
Proof.
  exact (train_critic_loss_sign Toy.world Toy.batch2 Toy.weights2 (Toy.agent 10 2)
           eq_refl).
Defined.


Lemma warm_up_critic_skips_witness :
  warm_up_critic Toy.world 100 (Toy.agent 10 4) = (Ok tt, Toy.agent 10 4).
Proof.
  apply (warm_up_critic_skips Toy.world 100 (Toy.agent 10 4)).
  left; simpl; lia.
Defined.

Lemma warm_up_critic_frame_witness :
  same_outside_critic (Toy.agent 10 0)
    (snd (warm_up_critic Toy.world 2 (Toy.agent 10 0))).
Proof.
  apply (warm_up_critic_frame Toy.world 2 (Toy.agent 10 0) _
           (fst (warm_up_critic Toy.world 2 (Toy.agent 10 0)))).
  destruct (warm_up_critic Toy.world 2 (Toy.agent 10 0)); reflexivity.
Defined.

(** ** More on populating the replay buffer *)


Section PreTrainMore.

Variable W : World.

(** A round of [pre_train] returns only during the warm-up, and then it
    has done nothing but draw an action and store an experience. *)
Lemma pre_train_step_returns (kraken_ds : Dataset (Obs W)) (i : nat)
  (a a' : Agent W) (r : unit) :
  pre_train_step W kraken_ds i a = (Ok r, a') ->
  (episode_count a < warmup_steps a)%Z /\ only_explored 1 a a'.
Proof.
  intros H.
  destruct (Z.lt_ge_cases (episode_count a) (warmup_steps a)) as [Hlt|Hge].
  - split; [exact Hlt|].
    revert H; unfold pre_train_step.
    destruct (ds_getitem kraken_ds (Z.of_nat i - 1)) as [xt prev_index].
    destruct (ds_getitem kraken_ds (Z.of_nat i)) as [xt_next j].
    unfold select_action; run_monad.
    rewrite select_action_weights_hybrid_warm by assumption.
    cbv zeta; intros H; injection H as _ <-.
    unfold only_explored; simpl; repeat split; lia.
  - destruct (pre_train_step_cold W kraken_ds i a Hge) as [e [E _]].
    rewrite E in H; discriminate.
Qed.

Lemma only_explored_trans (j k : nat) (a b c : Agent W) :
  only_explored j a b -> only_explored k b c -> only_explored (j + k) a c.
Proof.
  unfold only_explored.
  intros (H1 & H2 & H3 & H4 & H5 & H6 & H7 & H8)
         (K1 & K2 & K3 & K4 & K5 & K6 & K7 & K8).
  repeat split; try congruence; lia.
Qed.

Lemma pre_train_loop_returns (kraken_ds : Dataset (Obs W)) (xs : list nat)
  (a a' : Agent W) (r : unit) :
  for_each xs (pre_train_step W kraken_ds) a = (Ok r, a') ->
  only_explored (length xs) a a'
  /\ (xs <> [] -> (episode_count a + Z.of_nat (length xs) <= warmup_steps a)%Z).
Proof.
  revert a; induction xs as [|x xs IH]; intros a; simpl for_each.
  - unfold ret; intros H; injection H as _ <-.
    split; [unfold only_explored; simpl; repeat split; lia | congruence].
  - unfold bind.
    destruct (pre_train_step W kraken_ds x a) as [[u|e] a1] eqn:E1; [|discriminate].
    intros H2.
    destruct (pre_train_step_returns kraken_ds x a a1 u E1) as [Hlt F1].
    destruct (IH a1 H2) as [F2 Hw].
    split; [exact (only_explored_trans 1 (length xs) a a1 a' F1 F2)|].
    intros _; destruct F1 as (K1 & K2 & _).
    destruct xs as [|y ys]; [simpl; lia|].
    specialize (Hw ltac:(discriminate)).
    rewrite K1, K2 in Hw; simpl length in *; lia.
Qed.

(** X25.  A [pre_train] that returns has drawn every action uniformly: the
    whole loop fitted into the warm-up, the counter has grown by
    [n_samples + 48], the noise process is in its reset state, and the
    networks, the portfolio-vector memory and [epsilon] are what they
    were. *)
Theorem pre_train_returns_explored (a a' : Agent W) (r : unit) :
  pre_train W a = (Ok r, a') ->
  let n := ds_len (KrakenDataSet W (portfolio a) (window_size a) (step_size a)) in
  (episode_count a + Z.of_nat (n + 48) <= warmup_steps a)%Z
  /\ episode_count a' = (episode_count a + Z.of_nat (n + 48))%Z
  /\ ou_noise a' = OrnsteinUhlenbeckNoise.reset (ou_noise a)
  /\ actor a' = actor a /\ critic a' = critic a
  /\ pvm a' = pvm a /\ epsilon a' = epsilon a.
Proof.
  unfold pre_train; run_monad.
  rewrite ou_noise_call_reset.
  set (ds := KrakenDataSet W (portfolio a) (window_size a) (step_size a)).
  set (a0 := set_ou_noise (OrnsteinUhlenbeckNoise.reset (ou_noise a)) a).
  destruct (for_each _ _ a0) as [[u|e] a1] eqn:E; [|discriminate].
  destruct (Nat.eqb _ _); [|discriminate].
  intros H; injection H as _ <-; cbv zeta.
  destruct (pre_train_loop_returns ds _ a0 a1 u E) as [F Hw].
  rewrite length_seq in *.
  destruct F as (K1 & K2 & K3 & K4 & K5 & K6 & K7 & K8).
  assert (Hne : seq 1 (ds_len ds + 48) <> []).
  { replace (ds_len ds + 48)%nat with (S (ds_len ds + 47)) by lia; discriminate. }
  specialize (Hw Hne).
  repeat split; assumption.
Qed.




(** X27.  [pre_train] on a buffer that already holds experiences stores
    its [n_samples + 48] entries all the same and then fails its own
    assertion, which compares the whole length of the buffer with
    [n_samples + 48]. *)
Theorem pre_train_on_used_buffer (a : Agent W) :
  let n := ds_len (KrakenDataSet W (portfolio a) (window_size a) (step_size a)) in
  (0 < replay_len (replay_memory a))%nat ->
  (episode_count a + Z.of_nat (n + 48) <= warmup_steps a)%Z ->
  (replay_len (replay_memory a) + (n + 48) <= capacity (replay_memory a))%nat ->
  exists a',
    pre_train W a = (Raise AssertionError, a')
    /\ replay_len (replay_memory a')
       = (replay_len (replay_memory a) + (n + 48))%nat.
Proof.
  intros n Hpos Hc Hr.
  unfold pre_train; run_monad.
  rewrite ou_noise_call_reset; fold n.
  set (ds := KrakenDataSet W (portfolio a) (window_size a) (step_size a)) in *.
  set (a0 := set_ou_noise (OrnsteinUhlenbeckNoise.reset (ou_noise a)) a).
  destruct (pre_train_loop_warm W ds (seq 1 (n + 48)) a0) as [a1 [E1 F1]];
    rewrite ?length_seq; try assumption.
  rewrite length_seq in F1; destruct F1 as (K1 & K2 & K3 & K4).
  rewrite E1.
  simpl in K4.
  destruct (Nat.eqb_spec (replay_len (replay_memory a1)) (n + 48)) as [E|_]; [lia|].
  exists a1; split; [reflexivity | exact K4].
Qed.

End PreTrainMore.

Lemma pre_train_returns_explored_witness :
  exists a',
    pre_train Toy.world (Toy.agent 10 4) = (Ok tt, a')
    /\ episode_count a' = 58%Z
    /\ ou_noise a' = OrnsteinUhlenbeckNoise.reset (ou_noise (Toy.agent 10 4))
    /\ actor a' = actor (Toy.agent 10 4).
Proof.
  destruct (pre_train_within_warmup Toy.world (Toy.agent 10 4)) as [a' [E _]].
  - vm_compute; discriminate.
  - reflexivity.
  - apply Nat.leb_le; vm_compute; reflexivity.
  - exists a'; split; [exact E|].
    destruct (pre_train_returns_explored Toy.world (Toy.agent 10 4) a' tt E)
      as (_ & H1 & H2 & H3 & _).
    repeat split; assumption.
Defined.


Lemma pre_train_on_used_buffer_witness :
  exists a',
    pre_train Toy.world
      (@set_replay_memory Toy.world
         (mkReplay 20000 [(mkExperience (tt, []) [] 0 (tt, []) 0%Z, 0)])
         (Toy.agent 10 4))
    = (Raise AssertionError, a')
    /\ replay_len (replay_memory a') = (1 + (10 + 48))%nat.
Proof.
  apply (pre_train_on_used_buffer Toy.world
           (@set_replay_memory Toy.world
              (mkReplay 20000 [(mkExperience (tt, []) [] 0 (tt, []) 0%Z, 0)])
              (Toy.agent 10 4))).
  - apply Nat.ltb_lt; reflexivity.
  - vm_compute; discriminate.
  - apply Nat.leb_le; vm_compute; reflexivity.
Defined.

(** ** The training loop *)

Lemma lr_after_step (lr0 : R) (k : Z) :
  (0 <= k)%Z ->
  lr_after lr0 (k + 1)
  = if ((k + 1) mod 100 =? 0)%Z then lr_after lr0 k * (9 / 10) else lr_after lr0 k.
Proof.
  intros Hk; unfold lr_after.
  destruct (Z.eqb_spec ((k + 1) mod 100) 0) as [E|E].
  - replace (Z.to_nat ((k + 1) / 100)) with (S (Z.to_nat (k / 100))).
    + simpl; ring.
    + rewrite <- Z2Nat.inj_succ by (apply Z.div_pos; lia).
      f_equal.
      pose proof (Z.div_mod (k + 1) 100 ltac:(lia)).
      pose proof (Z.div_mod k 100 ltac:(lia)).
      pose proof (Z.mod_pos_bound k 100 ltac:(lia)).
      lia.
  - replace ((k + 1) / 100)%Z with (k / 100)%Z; [reflexivity|].
    pose proof (Z.div_mod (k + 1) 100 ltac:(lia)).
    pose proof (Z.div_mod k 100 ltac:(lia)).
    pose proof (Z.mod_pos_bound k 100 ltac:(lia)).
    pose proof (Z.mod_pos_bound (k + 1) 100 ltac:(lia)).
    lia.
Qed.

Lemma optimizer_step_lr (W : World) (o : Optim (OptimState W)) (p : Params)
  (g : option Params) :
  lr (fst (optimizer_step W o p g)) = lr o.
Proof.
  unfold optimizer_step; destruct g as [g|]; [|reflexivity].
  destruct (Adam_step W o p g); reflexivity.
Qed.

Lemma for_fold_cons {S A B : Type} (x : A) (xs : list A) (acc : B)
  (body : A -> B -> M S B) (s : S) :
  for_fold (x :: xs) acc body s
  = match body x acc s with
    | (Ok acc', s') => for_fold xs acc' body s'
    | (Raise e, s') => (Raise e, s')
    end.
Proof. reflexivity. Qed.

Section TrainLoop.

Variable W : World.

Lemma same_exploration_refl (a : Agent W) : same_exploration a a.
Proof. unfold same_exploration; repeat split. Qed.

Lemma same_exploration_trans (a b c : Agent W) :
  same_exploration a b -> same_exploration b c -> same_exploration a c.
Proof.
  unfold same_exploration; intros (H1 & H2 & H3 & H4 & H5) (K1 & K2 & K3 & K4 & K5).
  repeat split; congruence.
Qed.

Lemma train_critic_keeps (experience : ExperienceBatch (ObsB W))
  (is_weights : Tensor) (a a' : Agent W) (r : Result (Tensor * R)) :
  train_critic W experience is_weights a = (r, a') ->
  same_exploration a a'
  /\ lr (critic_optimizer a') = lr (critic_optimizer a)
  /\ actor_optimizer a' = actor_optimizer a.
Proof.
  unfold train_critic; run_monad; simpl critic; simpl batch_size.
  destruct (critic_td_error W (critic a) (batch_size a) experience) as [td|e].
  - simpl.
    pose proof (optimizer_step_lr W (critic_optimizer a) (critic a)
                  (Some (clip_grad_norm_
                           (autograd W (critic_objective W (batch_size a)
                                          experience is_weights) (critic a)) 1)))
      as Hlr.
    unfold optimizer_step in Hlr.
    destruct (Adam_step W (critic_optimizer a) (critic a) _) as [s p].
    intros H; injection H as _ <-.
    unfold same_exploration; simpl; repeat split.
  - intros H; injection H as _ <-.
    unfold same_exploration; simpl; repeat split.
Qed.

Lemma train_actor_keeps (experience : ExperienceBatch (ObsB W))
  (is_weights : Tensor) (beta : R) (a : Agent W) :
  exists x a',
    train_actor W experience is_weights beta a = (Ok x, a')
    /\ same_exploration a a'
    /\ lr (actor_optimizer a') = lr (actor_optimizer a)
    /\ critic_optimizer a' = critic_optimizer a.
Proof.
  unfold train_actor; run_monad; simpl.
  destruct (Adam_step W (actor_optimizer a) (actor a) _) as [s p].
  eexists; eexists; split; [reflexivity|].
  unfold same_exploration; simpl; repeat split.
Qed.

(** One round of the inner loop: the exploration state stays, and when the
    round returns both schedulers have made one more step. *)
Lemma train_iteration_keeps (batch_size : Z) (l : TrainLocals) (a a' : Agent W)
  (r : Result TrainLocals) :
  train_iteration W batch_size l a = (r, a') ->
  same_exploration a a'
  /\ forall l' lrc lra k,
       r = Ok l' ->
       schedulers_at lrc lra k (critic_scheduler l) (actor_scheduler l) a ->
       schedulers_at lrc lra (k + 1) (critic_scheduler l') (actor_scheduler l') a'.
Proof.
  unfold train_iteration; run_monad.
  destruct (replay_sample W (replay_memory a) (rng a) batch_size)
    as [[experiences indices] is_weights].
  cbv beta iota.
  destruct (train_critic W experiences is_weights (set_rng (S (rng a)) a))
    as [[[td_error critic_loss]|e] a1] eqn:E1.
  2:{ intros H; injection H as <- <-.
      destruct (train_critic_keeps _ _ _ _ _ E1) as [F1 _].
      split; [exact F1 | intros; discriminate]. }
  destruct (train_critic_keeps _ _ _ _ _ E1) as (F1 & Lc1 & Ao1).
  simpl in F1, Lc1, Ao1.
  set (a2 := set_replay_memory
               (replay_update_priorities W (replay_memory a1) indices td_error) a1).
  destruct (train_actor_keeps experiences is_weights (5 / 100) a2)
    as [[action actor_loss] [a3 (E3 & F3 & La3 & Co3)]].
  rewrite E3; simpl in F3, La3, Co3.
  unfold StepLR_step; simpl.
  intros H; injection H as <- <-.
  split.
  - unfold same_exploration in *; simpl.
    destruct F1 as (A1 & A2 & A3 & A4 & A5); destruct F3 as (B1 & B2 & B3 & B4 & B5).
    unfold a2 in *; simpl in *.
    repeat split; congruence.
  - intros l' lrc lra k Hl (Hk & Hcs & Has & Hlc & Hla).
    injection Hl as <-.
    unfold schedulers_at; simpl.
    rewrite Hcs, Has, !lr_after_step by assumption.
    repeat split; try lia.
    + destruct ((k + 1) mod 100 =? 0)%Z; simpl; congruence.
    + destruct ((k + 1) mod 100 =? 0)%Z; simpl; congruence.
Qed.

Lemma train_inner_keeps (batch_size : Z) (xs : list nat) (l : TrainLocals)
  (a a' : Agent W) (r : Result TrainLocals) :
  for_fold xs l (fun _ l => train_iteration W batch_size l) a = (r, a') ->
  same_exploration a a'
  /\ forall l' lrc lra k,
       r = Ok l' ->
       schedulers_at lrc lra k (critic_scheduler l) (actor_scheduler l) a ->
       schedulers_at lrc lra (k + Z.of_nat (length xs))
                     (critic_scheduler l') (actor_scheduler l') a'.
Proof.
  revert l a; induction xs as [|x xs IH]; intros l a; simpl for_fold.
  - unfold ret; intros H; injection H as <- <-.
    split; [apply same_exploration_refl|].
    intros l' lrc lra k Hl Hs; injection Hl as <-.
    simpl; rewrite Z.add_0_r; exact Hs.
  - unfold bind.
    destruct (train_iteration W batch_size l a) as [[l1|e] a1] eqn:E1.
    + destruct (train_iteration_keeps _ _ _ _ _ E1) as [F1 S1].
      intros H2; destruct (IH l1 a1 H2) as [F2 S2].
      split; [exact (same_exploration_trans _ _ _ F1 F2)|].
      intros l' lrc lra k Hl Hs.
      specialize (S1 l1 lrc lra k eq_refl Hs).
      specialize (S2 l' lrc lra (k + 1)%Z Hl S1).
      replace (k + Z.of_nat (length (x :: xs)))%Z
        with (k + 1 + Z.of_nat (length xs))%Z by (simpl length; lia).
      exact S2.
    + intros H; injection H as <- <-.
      destruct (train_iteration_keeps _ _ _ _ _ E1) as [F1 _].
      split; [exact F1 | intros; discriminate].
Qed.

Lemma train_episode_keeps (batch_size n_iterations_per_episode : Z)
  (cs acs : StepLR) (log : TrainLog) (a a' : Agent W)
  (r : Result (StepLR * StepLR * TrainLog)) :
  train_episode W batch_size n_iterations_per_episode (cs, acs, log) a = (r, a') ->
  same_exploration a a'
  /\ forall cs' acs' log' lrc lra k,
       r = Ok (cs', acs', log') ->
       schedulers_at lrc lra k cs acs a ->
       schedulers_at lrc lra (k + Z.of_nat (Z.to_nat n_iterations_per_episode))
                     cs' acs' a'
       /\ length (actor_losses log') = S (length (actor_losses log))
       /\ length (critic_losses log') = S (length (critic_losses log))
       /\ length (rewards log') = S (length (rewards log)).
Proof.
  unfold train_episode; run_monad.
  destruct (for_fold _ _ _ a) as [[l|e] a1] eqn:E1.
  - destruct (train_inner_keeps _ _ _ _ _ _ E1) as [F1 S1].
    rewrite length_seq in S1.
    destruct (n_iterations_per_episode =? 0)%Z.
    + intros H; injection H as <- <-; split; [exact F1 | intros; discriminate].
    + destruct (batch_size =? 0)%Z.
      * intros H; injection H as <- <-; split; [exact F1 | intros; discriminate].
      * intros H; injection H as <- <-; split; [exact F1|].
        intros cs' acs' log' lrc lra k Hl Hs; injection Hl as <- <- <-.
        split; [exact (S1 l lrc lra k eq_refl Hs)|].
        simpl; rewrite !length_app; simpl; repeat split; lia.
  - intros H; injection H as <- <-.
    destruct (train_inner_keeps _ _ _ _ _ _ E1) as [F1 _].
    split; [exact F1 | intros; discriminate].
Qed.

Lemma train_outer_keeps (batch_size n_iterations_per_episode : Z) (xs : list nat)
  (cs acs : StepLR) (log : TrainLog) (a a' : Agent W)
  (r : Result (StepLR * StepLR * TrainLog)) :
  for_fold xs (cs, acs, log)
    (fun _ acc => train_episode W batch_size n_iterations_per_episode acc) a
  = (r, a') ->
  same_exploration a a'
  /\ forall cs' acs' log' lrc lra k,
       r = Ok (cs', acs', log') ->
       schedulers_at lrc lra k cs acs a ->
       schedulers_at lrc lra
         (k + Z.of_nat (length xs * Z.to_nat n_iterations_per_episode)) cs' acs' a'
       /\ length (actor_losses log') = (length (actor_losses log) + length xs)%nat
       /\ length (critic_losses log') = (length (critic_losses log) + length xs)%nat
       /\ length (rewards log') = (length (rewards log) + length xs)%nat.
Proof.
  revert cs acs log a; induction xs as [|x xs IH]; intros cs acs log a.
  - simpl for_fold; unfold ret; intros H; injection H as <- <-.
    split; [apply same_exploration_refl|].
    intros cs' acs' log' lrc lra k Hl Hs; injection Hl as <- <- <-.
    simpl length; simpl Nat.mul; simpl Z.of_nat.
    rewrite Z.add_0_r, !Nat.add_0_r; split; [exact Hs | repeat split].
  - rewrite for_fold_cons.
    destruct (train_episode W batch_size n_iterations_per_episode (cs, acs, log) a)
      as [[[[cs1 acs1] log1]|e] a1] eqn:E1.
    + destruct (train_episode_keeps _ _ _ _ _ _ _ _ E1) as [F1 S1].
      intros H2; destruct (IH cs1 acs1 log1 a1 H2) as [F2 S2].
      split; [exact (same_exploration_trans _ _ _ F1 F2)|].
      intros cs' acs' log' lrc lra k Hl Hs.
      destruct (S1 cs1 acs1 log1 lrc lra k eq_refl Hs) as (T1 & L1 & L2 & L3).
      destruct (S2 cs' acs' log' lrc lra _ Hl T1) as (T2 & M1 & M2 & M3).
      simpl length.
      replace (k + Z.of_nat (S (length xs) * Z.to_nat n_iterations_per_episode))%Z
        with (k + Z.of_nat (Z.to_nat n_iterations_per_episode)
              + Z.of_nat (length xs * Z.to_nat n_iterations_per_episode))%Z by lia.
      split; [exact T2 | repeat split; lia].
    + intros H; injection H as <- <-.
      destruct (train_episode_keeps _ _ _ _ _ _ _ _ E1) as [F1 _].
      split; [exact F1 | intros; discriminate].
Qed.

(** X28.  On a buffer that is not empty, [train] with no episode to run
    returns empty logs and leaves the agent as it was, and [train] with at
    least one episode of zero iterations raises [ZeroDivisionError] when it
    averages the losses of the first episode, again without having touched
    the agent. *)
Theorem train_degenerate_loops (n_episodes n_iterations_per_episode : Z)
  (a : Agent W) :
  replay_len (replay_memory a) <> 0%nat ->
  ((n_episodes <= 0)%Z ->
   train W n_episodes n_iterations_per_episode a = (Ok (mkLog [] [] []), a))
  /\ ((0 < n_episodes)%Z ->
      train W n_episodes 0 a = (Raise ZeroDivisionError, a)).
Proof.
  intros Hne; apply Nat.eqb_neq in Hne.
  split; intros Hn; unfold train; run_monad; rewrite Hne.
  - replace (Z.to_nat n_episodes) with 0%nat by lia; reflexivity.
  - destruct (Z.to_nat n_episodes) as [|k] eqn:Ek; [lia|].
    reflexivity.
Qed.

(** X29.  A [train] that returns has logged one actor loss, one critic
    loss and one reward per episode, and its two schedulers, created anew
    by the call and stepped once per iteration, have multiplied each
    learning rate by [0.9] once for every full hundred of the
    [n_episodes * n_iterations_per_episode] iterations. *)
Theorem train_learning_rates (n_episodes n_iterations_per_episode : Z)
  (a a' : Agent W) (log : TrainLog) :
  train W n_episodes n_iterations_per_episode a = (Ok log, a') ->
  let episodes := Z.to_nat n_episodes in
  let iterations := Z.of_nat (episodes * Z.to_nat n_iterations_per_episode) in
  length (actor_losses log) = episodes
  /\ length (critic_losses log) = episodes
  /\ length (rewards log) = episodes
  /\ lr (critic_optimizer a')
     = lr (critic_optimizer a) * (9 / 10) ^ Z.to_nat (iterations / 100)
  /\ lr (actor_optimizer a')
     = lr (actor_optimizer a) * (9 / 10) ^ Z.to_nat (iterations / 100).
Proof.
  unfold train; run_monad.
  destruct (Nat.eqb _ _); [discriminate|].
  destruct (for_fold _ _ _ a) as [[[[cs acs] log0]|e] a1] eqn:E; [|discriminate].
  intros H; injection H as <- <-.
  destruct (train_outer_keeps _ _ _ _ _ _ _ _ _ E) as [_ S1].
  rewrite length_seq in S1.
  destruct (S1 cs acs log0 (lr (critic_optimizer a)) (lr (actor_optimizer a)) 0%Z
              eq_refl) as ((_ & _ & _ & Hc & Ha) & L1 & L2 & L3).
  - unfold schedulers_at, lr_after; simpl; repeat split; try lia; ring.
  - cbv zeta; simpl in L1, L2, L3.
    rewrite Z.add_0_l in Hc, Ha.
    repeat split; assumption.
Qed.

(** X30.  However it ends, [train] leaves the exploration state and the
    target networks alone: the noise process, [epsilon], the counter,
    [target_actor] and [target_critic] are what they were before the
    call. *)
Theorem train_keeps_exploration (n_episodes n_iterations_per_episode : Z)
  (a a' : Agent W) (r : Result TrainLog) :
  train W n_episodes n_iterations_per_episode a = (r, a') ->
  same_exploration a a'.
Proof.
  unfold train; run_monad.
  destruct (Nat.eqb _ _).
  - intros H; injection H as _ <-; apply same_exploration_refl.
  - destruct (for_fold _ _ _ a) as [[[[cs acs] log0]|e] a1] eqn:E;
      intros H; injection H as _ <-;
      exact (proj1 (train_outer_keeps _ _ _ _ _ _ _ _ _ E)).
Qed.

End TrainLoop.

Lemma train_degenerate_loops_witness :
  train Toy.world 0 20 Toy.with_one_experience
  = (Ok (mkLog [] [] []), Toy.with_one_experience)
  /\ train Toy.world 3 0 Toy.with_one_experience
     = (Raise ZeroDivisionError, Toy.with_one_experience).
Proof.
  assert (H : replay_len (replay_memory Toy.with_one_experience) <> 0%nat)
    by discriminate.
  destruct (train_degenerate_loops Toy.world 0 20 Toy.with_one_experience H)
    as [H1 _].
  destruct (train_degenerate_loops Toy.world 3 0 Toy.with_one_experience H)
    as [_ H2].
  split; [apply H1; lia | apply H2; lia].
Defined.

Section TrainReturns.

Variable W : World.

(** The critic fits every batch the replay memory hands out. *)
Hypothesis critic_fits :
  forall (m : PrioritizedReplayMemory (Obs W)) (k : nat) (b : Z)
         (theta : Params) (bs : Z),
  exists td_error,
    critic_td_error W theta bs (fst (fst (replay_sample W m k b))) = Ok td_error.

Lemma train_iteration_returns (bsz : Z) (l : TrainLocals) (a : Agent W) :
  exists l' a', train_iteration W bsz l a = (Ok l', a').
Proof.
  unfold train_iteration; run_monad.
  pose proof (critic_fits (replay_memory a) (rng a) bsz) as Hfit.
  destruct (replay_sample W (replay_memory a) (rng a) bsz)
    as [[experiences indices] is_weights].
  cbv beta iota; simpl fst in Hfit.
  pose proof (train_critic_outcome W experiences is_weights
                (set_rng (S (rng a)) a)) as Hc.
  destruct (Hfit (critic (set_rng (S (rng a)) a))
                 (batch_size (set_rng (S (rng a)) a))) as [td Etd].
  rewrite Etd in Hc; destruct Hc as [a1 [E1 _]]; rewrite E1.
  set (a2 := set_replay_memory _ a1).
  destruct (train_actor_keeps W experiences is_weights (5 / 100) a2)
    as [[action actor_loss] [a3 [E3 _]]].
  rewrite E3; unfold StepLR_step; simpl.
  eexists; eexists; reflexivity.
Qed.

Lemma train_inner_returns (bsz : Z) (xs : list nat) (l : TrainLocals)
  (a : Agent W) :
  exists l' a',
    for_fold xs l (fun _ l => train_iteration W bsz l) a = (Ok l', a').
Proof.
  revert l a; induction xs as [|x xs IH]; intros l a.
  - exists l, a; reflexivity.
  - rewrite for_fold_cons.
    destruct (train_iteration_returns bsz l a) as [l1 [a1 E1]]; rewrite E1.
    apply IH.
Qed.

Lemma train_outer_returns (bsz n_iterations_per_episode : Z) (xs : list nat)
  (acc : StepLR * StepLR * TrainLog) (a : Agent W) :
  n_iterations_per_episode <> 0%Z -> bsz <> 0%Z ->
  exists acc' a',
    for_fold xs acc
      (fun _ acc => train_episode W bsz n_iterations_per_episode acc) a
    = (Ok acc', a').
Proof.
  intros Hn Hb; apply Z.eqb_neq in Hn, Hb.
  revert acc a; induction xs as [|x xs IH]; intros acc a.
  - exists acc, a; reflexivity.
  - rewrite for_fold_cons.
    assert (E : exists acc1 a1,
               train_episode W bsz n_iterations_per_episode acc a = (Ok acc1, a1)).
    { destruct acc as [[cs acs] log]; unfold train_episode; run_monad.
      destruct (train_inner_returns bsz (seq 0 (Z.to_nat n_iterations_per_episode))
                  (mkLocals cs acs 0 0 0) a) as [l1 [a1 E1]].
      rewrite E1, Hn, Hb; eexists; eexists; reflexivity. }
    destruct E as [acc1 [a1 E1]]; rewrite E1; apply IH.
Qed.

(** When the critic fits the batches, the buffer is not empty and neither
    the batch size nor the number of iterations is zero, [train] returns. *)
Lemma train_returns (n_episodes n_iterations_per_episode : Z) (a : Agent W) :
  replay_len (replay_memory a) <> 0%nat ->
  n_iterations_per_episode <> 0%Z -> batch_size a <> 0%Z ->
  exists log a', train W n_episodes n_iterations_per_episode a = (Ok log, a').
Proof.
  intros Hne Hn Hb; apply Nat.eqb_neq in Hne.
  unfold train; run_monad; rewrite Hne.
  destruct (train_outer_returns (batch_size a) n_iterations_per_episode
              (seq 0 (Z.to_nat n_episodes))
              (mkStepLR 0, mkStepLR 0, mkLog [] [] []) a Hn Hb)
    as [[[cs acs] log] [a' E]].
  rewrite E; eexists; eexists; reflexivity.
Qed.

End TrainReturns.

Lemma train_returns_on_toy :
  exists log a', train Toy.world 2 150 Toy.with_one_experience = (Ok log, a').
Proof.
  apply (train_returns Toy.world).
  - intros m k b theta bs; eexists; reflexivity.
  - discriminate.
  - discriminate.
  - discriminate.
Qed.

Lemma train_learning_rates_witness :
  exists log a',
    train Toy.world 2 150 Toy.with_one_experience = (Ok log, a')
    /\ length (actor_losses log) = 2%nat
    /\ lr (critic_optimizer a')
       = lr (critic_optimizer Toy.with_one_experience) * (9 / 10) ^ 3.
Proof.
  destruct train_returns_on_toy as [log [a' E]].
  exists log, a'; split; [exact E|].
  destruct (train_learning_rates Toy.world 2 150 Toy.with_one_experience a' log E)
    as (H1 & _ & _ & H4 & _).
  split; [exact H1 | exact H4].
Defined.

Lemma train_keeps_exploration_witness :
  same_exploration Toy.with_one_experience
    (snd (train Toy.world 2 1 Toy.with_one_experience)).
Proof.
  apply (train_keeps_exploration Toy.world 2 1 Toy.with_one_experience _
           (fst (train Toy.world 2 1 Toy.with_one_experience))).
  destruct (train Toy.world 2 1 Toy.with_one_experience); reflexivity.
Defined.
